(** * Chunked raster thresholding: a model of [raster_threshold_chunked.py]

    The script reads a single-band raster block by block, infers a native
    threshold from a sample of the first block, and writes a uint8 mask
    (1 where the stored value is at or above the threshold, 0 elsewhere).

    Modelling choices.
    - Python integers (offsets, sizes, the [--overview] factor) are [Z];
      [//] is [Z.div], which rounds towards minus infinity as Python does.
    - Pixel values and thresholds are exact rationals [Q]; numbers are
      compared with [Qle_bool] and stated equal with [==].  The script
      multiplies in binary64 and numpy compares and interpolates in the
      array's data type, so a product, a percentile or a comparison at the
      very threshold can differ from the exact one; NaN and infinities are
      outside the model.  Properties of masks are therefore stated through
      what rounding preserves (the order of stored values, the existence of
      one cut-off for a run, the 0/1 domain), and exact numbers only where
      the arithmetic is exact (whole values, equal neighbours in the
      percentile, the product 0.4 * 100).
    - The raster library is an external collaborator.  A source dataset is
      a record holding its grid of pixels (stored value and validity flag),
      its geometry and the block windows it enumerates; windowed reads are
      derived from the grid.  Which source pixel a decimated read selects is
      left open: it is the section variable [nearest].
    - Effects (reads, console output, opening the output, windowed writes)
      are collected in a trace of events, threaded through a small
      writer/error monad.
    - Opening the output can fail: the collaborator refuses a tiled
      profile whose block width or height is not a multiple of 16, and the
      script forces [tiled] on the profile it copies from the source.
      Other input/output failures (unreadable input, disk errors) are not
      modelled; [fs p = None] stands for [os.path.exists(p)] being false. *)

From Stdlib Require Import String ZArith QArith Qround List Bool Lia PrimFloat.
Import ListNotations.

Local Open Scope Z_scope.

(** ** Windows, affine transforms, pixels *)

Module Window.
(** [rasterio.windows.Window]: offsets and sizes in pixels. *)
Record t : Type := mk
  { col_off : Z;
    row_off : Z;
    width : Z;
    height : Z }.

(** The cell [(r, c)] lies inside the window. *)
Definition covers (w : t) (r c : Z) : bool :=
  (row_off w <=? r) && (r <? row_off w + height w) &&
  (col_off w <=? c) && (c <? col_off w + width w).
End Window.

Module Affine.
(** [affine.Affine(a, b, c, d, e, f)]: the matrix
    [[a b c] [d e f] [0 0 1]]. *)
Record t : Type := mk { a : Q; b : Q; c : Q; d : Q; e : Q; f : Q }.

Definition scale (sx sy : Q) : t := mk sx 0%Q 0%Q 0%Q sy 0%Q.

(** Matrix product, the [*] of two transforms. *)
Definition mul (s o : t) : t :=
  mk (a s * a o + b s * d o)%Q
     (a s * b o + b s * e o)%Q
     (a s * c o + b s * f o + c s)%Q
     (d s * a o + e s * d o)%Q
     (d s * b o + e s * e o)%Q
     (d s * c o + e s * f o + f s)%Q.
End Affine.

(** A stored sample together with the collaborator's per-pixel validity
    flag ([false] for no-data pixels). *)
Record Pixel : Type := mkPixel
  { stored : Q;
    is_valid : bool }.

(** A rasterio profile: the keys [src.profile] carries. *)
Record Profile : Type := mkProfile
  { p_driver : string;
    p_dtype : string;
    p_count : Z;
    p_nodata : option Q;
    p_crs : option string;
    p_blockxsize : option Z;
    p_blockysize : option Z;
    p_tiled : bool;
    p_compress : option string;
    p_interleave : option string;
    p_height : Z;
    p_width : Z;
    p_transform : Affine.t }.

(** An opened source dataset. *)
Record DatasetReader : Type := mkDataset
  { src_height : Z;
    src_width : Z;
    src_transform : Affine.t;
    src_driver : string;
    src_dtype : string;
    src_count : Z;
    src_nodata : option Q;
    src_crs : option string;
    (** [src.block_shapes]: per band, block height and block width *)
    block_shapes : list (Z * Z);
    src_tiled : bool;
    src_compress : option string;
    src_interleave : option string;
    (** band 1, addressed by row and column *)
    src_pixels : Z -> Z -> Pixel;
    (** what [src.block_windows(1)] yields: block index and window *)
    block_windows : list ((Z * Z) * Window.t) }.

(** [src.profile]: built from the dataset's own attributes; the block
    sizes are those of the first band's block shape, when there is one. *)
Definition profile (src : DatasetReader) : Profile :=
  {| p_driver := src_driver src;
     p_dtype := src_dtype src;
     p_count := src_count src;
     p_nodata := src_nodata src;
     p_crs := src_crs src;
     p_blockxsize :=
       match block_shapes src with
       | (_, bw) :: _ => Some bw
       | [] => None
       end;
     p_blockysize :=
       match block_shapes src with
       | (bh, _) :: _ => Some bh
       | [] => None
       end;
     p_tiled := src_tiled src;
     p_compress := src_compress src;
     p_interleave := src_interleave src;
     p_height := src_height src;
     p_width := src_width src;
     p_transform := src_transform src |}.

(** ** Arrays *)

(** A 2-D array is a list of rows.  A read returns either a plain array or
    a masked array, whose mask is [true] at invalid cells (numpy's
    convention). *)
Inductive Array : Type :=
| ndarray (data : list (list Q))
| MaskedArray (data : list (list Q)) (mask : list (list bool)).

Definition isMaskedArray (arr : Array) : bool :=
  match arr with
  | MaskedArray _ _ => true
  | ndarray _ => false
  end.

Definition array_data (arr : Array) : list (list Q) :=
  match arr with
  | ndarray dt => dt
  | MaskedArray dt _ => dt
  end.

(** [arr.shape] of a 2-D array. *)
Definition shape {A : Type} (rows : list (list A)) : Z * Z :=
  (Z.of_nat (length rows), Z.of_nat (length (hd [] rows))).

(** [arr.flatten()]: row-major. *)
Definition flatten (arr : Array) : list Q := concat (array_data arr).

Fixpoint keep_unmasked (vs : list Q) (ms : list bool) : list Q :=
  match vs, ms with
  | v :: vs', m :: ms' =>
      if m then keep_unmasked vs' ms' else v :: keep_unmasked vs' ms'
  | _, _ => []
  end.

(** [arr.compressed()]: the unmasked values, row-major. *)
Definition compressed (arr : Array) : list Q :=
  match arr with
  | ndarray dt => concat dt
  | MaskedArray dt mk => keep_unmasked (concat dt) (concat mk)
  end.

(** [0, 1, ..., n-1]; empty when [n <= 0]. *)
Definition zrange (n : Z) : list Z := map Z.of_nat (seq 0 (Z.to_nat n)).

(** [(data >= thr).astype(np.uint8)]: [True] becomes 1, [False] 0.  The
    comparison is the exact one on rationals. *)
Definition astype_uint8 (bit : bool) : Z := if bit then 1 else 0.

Definition ge_mask (data : Array) (thr : Q) : list (list Z) :=
  map (map (fun v => astype_uint8 (Qle_bool thr v))) (array_data data).

(** ** Percentile *)

Fixpoint insert_sorted (x : Q) (l : list Q) : list Q :=
  match l with
  | [] => [x]
  | y :: l' => if Qle_bool x y then x :: l else y :: insert_sorted x l'
  end.

Definition sort_values (l : list Q) : list Q := fold_right insert_sorted [] l.

(** [np.nanpercentile(valid, q)] with numpy's default linear method, on a
    non-empty sample, in exact arithmetic: the virtual index
    [(n-1) * q/100] is split into its floor and fractional part, and the
    result interpolates between the two neighbouring order statistics.
    numpy computes the index in binary64 and interpolates in the array's
    data type, so the two agree exactly only where the neighbours are
    equal or the arithmetic is exact.  (There are no NaN in the model, so
    nothing is dropped.) *)
Definition nanpercentile (valid : list Q) (q : Q) : Q :=
  let sorted := sort_values valid in
  let n := Z.of_nat (length sorted) in
  let virtual := (inject_Z (n - 1) * (q / 100))%Q in
  let previous := Qfloor virtual in
  let next := Z.min (previous + 1) (n - 1) in
  let gamma := (virtual - inject_Z previous)%Q in
  let lo := nth (Z.to_nat previous) sorted 0%Q in
  let hi := nth (Z.to_nat next) sorted 0%Q in
  (lo + (hi - lo) * gamma)%Q.

(** ** Effects *)

Inductive Exception : Type :=
| RuntimeError (msg : string)
| SystemExit (code : Z)
| RasterBlockError (msg : string).

Inductive Event : Type :=
(** [src.read(1, window=w, masked=..., out_shape=...)] *)
| EvRead (w : Window.t) (masked : bool) (out_shape : option (Z * Z))
(** the [[INFO]] line: data max, scale guess, native threshold *)
| EvInfo (data_max scale thr_native : Q)
(** [rasterio.open(out_path, "w", **profile)] *)
| EvOpen (out_path : string) (p : Profile)
(** [dst.write(mask, 1, window=w)] *)
| EvWrite (w : Window.t) (mask : list (list Z))
(** the closing [[OK]] line *)
| EvOk (out_path : string)
(** the "Input not found" line on stderr *)
| EvNotFound (tif_path : string).

(** A computation emits a trace and either raises or returns. *)
Definition M (A : Type) : Type := list Event * (Exception + A).

Definition ret {A : Type} (x : A) : M A := ([], inr x).

Definition raise {A : Type} (ex : Exception) : M A := ([], inl ex).

Definition emit (ev : Event) : M unit := ([ev], inr tt).

Definition bind {A B : Type} (m : M A) (k : A -> M B) : M B :=
  match m with
  | (tr, inl ex) => (tr, inl ex)
  | (tr, inr x) => let (tr', res) := k x in (tr ++ tr', res)
  end.

Notation "x <- m ;; k" := (bind m (fun x => k))
  (at level 61, m at next level, right associativity).
Notation "m ;;; k" := (bind m (fun _ => k))
  (at level 61, right associativity).

(** A [for] loop whose body may [continue] (return early) or raise. *)
Fixpoint for_each {A : Type} (body : A -> M unit) (items : list A) : M unit :=
  match items with
  | [] => ret tt
  | x :: rest => body x ;;; for_each body rest
  end.

Notation "' pat <- m ;; k" := (bind m (fun pat => k))
  (at level 61, pat pattern, m at next level, right associativity).

(** ** The script *)

(** The parsed command line. *)
Record Args : Type := mkArgs
  { tif : string;
    out : string;
    threshold : Q;
    overview : Z }.

(** [if data_max <= 1.0: ... elif data_max <= 110.0: ... elif ... else ...],
    lines 38-46. *)
Definition scale_guess (data_max : Q) : Q :=
  if Qle_bool data_max 1 then 1%Q
  else if Qle_bool data_max 110 then 100%Q
  else if Qle_bool data_max 11000 then 10000%Q
  else 1%Q.

(** [if valid.size == 0: data_max = 1.0 else: ... nanpercentile(valid, 99.9)],
    lines 33-36. *)
Definition robust_max (valid : list Q) : Q :=
  if Z.of_nat (length valid) =? 0 then 1%Q
  else nanpercentile valid (999 # 10).

(** [if overview and overview > 1], lines 84, 96 and 115. *)
Definition downsampling (overview : Z) : bool :=
  negb (overview =? 0) && (1 <? overview).

(** [profile.update(dtype=uint8, count=1, nodata=0, tiled=True,
    compress="LZW")], lines 75-81. *)
Definition force_uint8 (p : Profile) : Profile :=
  {| p_driver := p_driver p;
     p_dtype := "uint8";
     p_count := 1;
     p_nodata := Some 0%Q;
     p_crs := p_crs p;
     p_blockxsize := p_blockxsize p;
     p_blockysize := p_blockysize p;
     p_tiled := true;
     p_compress := Some "LZW"%string;
     p_interleave := p_interleave p;
     p_height := p_height p;
     p_width := p_width p;
     p_transform := p_transform p |}.

(** [profile.update(height=..., width=..., transform=...)], line 87. *)
Definition resize (p : Profile) (new_height new_width : Z) (tr : Affine.t)
  : Profile :=
  {| p_driver := p_driver p;
     p_dtype := p_dtype p;
     p_count := p_count p;
     p_nodata := p_nodata p;
     p_crs := p_crs p;
     p_blockxsize := p_blockxsize p;
     p_blockysize := p_blockysize p;
     p_tiled := p_tiled p;
     p_compress := p_compress p;
     p_interleave := p_interleave p;
     p_height := new_height;
     p_width := new_width;
     p_transform := tr |}.

(** The collaborator's test on a block size given for a tiled output:
    [blockxsize and int(blockxsize) % 16]. *)
Definition bad_block_size (size : option Z) : bool :=
  match size with
  | Some n => negb (n mod 16 =? 0)
  | None => false
  end.

(** The profiles [rasterio.open(out_path, "w", **profile)] accepts: a tiled
    profile must not carry a block width or height that is not a multiple
    of 16. *)
Definition creatable (p : Profile) : bool :=
  negb (p_tiled p
        && (bad_block_size (p_blockxsize p)
            || bad_block_size (p_blockysize p))).

(** [rasterio.open(out_path, "w", **profile)], line 92: the refusal is
    raised before anything is created. *)
Definition open_w (out_path : string) (p : Profile) : M unit :=
  if creatable p then emit (EvOpen out_path p)
  else raise (RasterBlockError
         "The height and width of TIFF dataset blocks must be multiples of 16").

Section Pipeline.

(** [nearest n m i]: the offset, within a source extent of [n] pixels, of
    the pixel the collaborator's nearest-neighbour decimation selects for
    cell [i] of [m]. *)
Variable nearest : Z -> Z -> Z -> Z.

(** The cells a windowed read of band 1 returns, each projected by
    [get]: the window's own pixels, or the decimated selection when an
    output shape is requested. *)
Definition read_cells {A : Type} (src : DatasetReader) (w : Window.t)
    (out_shape : option (Z * Z)) (get : Pixel -> A) : list (list A) :=
  match out_shape with
  | None =>
      map (fun i =>
             map (fun j =>
                    get (src_pixels src (Window.row_off w + i)
                                        (Window.col_off w + j)))
                 (zrange (Window.width w)))
          (zrange (Window.height w))
  | Some (rows, cols) =>
      map (fun i =>
             map (fun j =>
                    get (src_pixels src
                           (Window.row_off w
                            + nearest (Window.height w) rows i)
                           (Window.col_off w
                            + nearest (Window.width w) cols j)))
                 (zrange cols))
          (zrange rows)
  end.

(** The value of [src.read(1, window=w, masked=..., out_shape=...)]. *)
Definition read_value (src : DatasetReader) (w : Window.t) (masked : bool)
    (out_shape : option (Z * Z)) : Array :=
  if masked then
    MaskedArray (read_cells src w out_shape stored)
                (read_cells src w out_shape (fun p => negb (is_valid p)))
  else ndarray (read_cells src w out_shape stored).

(** [src.read(...)] as an effect. *)
Definition read (src : DatasetReader) (w : Window.t) (masked : bool)
    (out_shape : option (Z * Z)) : M Array :=
  emit (EvRead w masked out_shape) ;;;
  ret (read_value src w masked out_shape).

(** Lines 16-49. *)
Definition infer_threshold_value (src : DatasetReader) (threshold : Q)
  : M (Q * Q * Q) :=
  let first_window :=
    match block_windows src with
    | [] => None
    | (_, w) :: _ => Some w
    end in
  match first_window with
  | None => raise (RuntimeError "No windows found in the raster.")
  | Some first_window =>
      arr <- read src first_window true None ;;
      let valid := if isMaskedArray arr then compressed arr
                   else flatten arr in
      let data_max := robust_max valid in
      let scale := scale_guess data_max in
      let thr_native := (threshold * scale)%Q in
      ret (thr_native, scale, data_max)
  end.

(** The body of the loop over [src.block_windows(1)], lines 94-124.
    [continue] is the early [ret tt]. *)
Definition process_block (src : DatasetReader) (thr_native : Q)
    (overview : Z) (blk : (Z * Z) * Window.t) : M unit :=
  let (ji, w) := blk in
  fetched <-
    (if downsampling overview then
       let height := Window.height w / overview in
       let width := Window.width w / overview in
       if (height <=? 0) || (width <=? 0) then ret None
       else data <- read src w false (Some (height, width)) ;;
            ret (Some data)
     else data <- read src w false None ;;
          ret (Some data)) ;;
  match fetched with
  | None => ret tt
  | Some data =>
      let mask := ge_mask data thr_native in
      if downsampling overview then
        let dst_window :=
          Window.mk (Window.col_off w / overview)
                    (Window.row_off w / overview)
                    (snd (shape mask))
                    (fst (shape mask)) in
        emit (EvWrite dst_window mask)
      else emit (EvWrite w mask)
  end.

(** Lines 51-126, after argument parsing.  [fs] maps a path to the raster
    found there; [sys.exit(2)] raises [SystemExit 2]. *)
Definition main (fs : string -> option DatasetReader) (args : Args)
  : M unit :=
  let tif_path := tif args in
  let out_path := out args in
  let thr := threshold args in
  let overview := overview args in
  match fs tif_path with
  | None =>
      emit (EvNotFound tif_path) ;;;
      raise (SystemExit 2)
  | Some src =>
      ' (thr_native, scale, data_max) <- infer_threshold_value src thr ;;
      emit (EvInfo data_max scale thr_native) ;;;
      let profile := force_uint8 (profile src) in
      let profile :=
        if downsampling overview then
          let new_height := Z.max 1 (src_height src / overview) in
          let new_width := Z.max 1 (src_width src / overview) in
          resize profile new_height new_width
            (Affine.mul (src_transform src)
               (Affine.scale (inject_Z overview) (inject_Z overview)))
        else profile in
      open_w out_path profile ;;;
      for_each (process_block src thr_native overview)
               (block_windows src) ;;;
      emit (EvOk out_path)
  end.

End Pipeline.

(** ** Observing a trace *)

(** The windowed writes of a trace, in order. *)
Fixpoint written (tr : list Event) : list (Window.t * list (list Z)) :=
  match tr with
  | [] => []
  | EvWrite w mask :: tr' => (w, mask) :: written tr'
  | _ :: tr' => written tr'
  end.

Definition written_windows (tr : list Event) : list Window.t :=
  map fst (written tr).

(** How many of the windows [ws] contain the cell [(r, c)]. *)
Definition cover_count (ws : list Window.t) (r c : Z) : nat :=
  length (filter (fun w => Window.covers w r c) ws).

(** The windows [ws] tile a grid of [rows] by [cols] cells exactly: each is
    non-empty and inside the grid, and every cell of the grid lies in
    exactly one of them. *)
Definition exact_tiling (rows cols : Z) (ws : list Window.t) : Prop :=
  (forall w, In w ws ->
     0 <= Window.row_off w /\ 0 <= Window.col_off w /\
     0 < Window.height w /\ 0 < Window.width w /\
     Window.row_off w + Window.height w <= rows /\
     Window.col_off w + Window.width w <= cols) /\
  (forall r c, 0 <= r < rows -> 0 <= c < cols -> cover_count ws r c = 1%nat).

(** Number of 1-valued cells of a mask, and of all masks written. *)
Definition count_ones (mask : list (list Z)) : nat :=
  length (filter (fun v => v =? 1) (concat mask)).

Definition ones_written (tr : list Event) : nat :=
  list_sum (map (fun wm => count_ones (snd wm)) (written tr)).

(** Cell [(i, j)] of a mask. *)
Definition cell (mask : list (list Z)) (i j : Z) : Z :=
  nth (Z.to_nat j) (nth (Z.to_nat i) mask []) 0.

(** [mask2] is cell-wise at most [mask1], on the same shape. *)
Definition mask_le (mask2 mask1 : list (list Z)) : Prop :=
  Forall2 (Forall2 Z.le) mask2 mask1.

(** The stored values of the valid pixels of a window, row-major. *)
Definition valid_values (src : DatasetReader) (w : Window.t) : list Q :=
  map stored
    (filter is_valid
       (concat
          (map (fun i =>
                  map (fun j =>
                         src_pixels src (Window.row_off w + i)
                                        (Window.col_off w + j))
                      (zrange (Window.width w)))
               (zrange (Window.height w))))).

(** The scale table in the words of the design notes: ordered pairs of
    upper bound and scale factor, the first matching bound wins, with a
    fallback when none matches. *)
Definition scale_buckets : list (Q * Q) :=
  [(1, 1); (110, 100); (11000, 10000)]%Q.

Fixpoint first_match (table : list (Q * Q)) (fallback x : Q) : Q :=
  match table with
  | [] => fallback
  | (bound, factor) :: table' =>
      if Qle_bool x bound then factor else first_match table' fallback x
  end.

(** ** Sample inputs *)

(** A grid given by its rows; cells outside are invalid zeros. *)
Definition pixels_of_rows (rows : list (list Pixel)) (r c : Z) : Pixel :=
  if (r <? 0) || (c <? 0) then mkPixel 0 false
  else nth (Z.to_nat c) (nth (Z.to_nat r) rows []) (mkPixel 0 false).

(** Centre sampling: one concrete nearest-neighbour rule. *)
Definition centre_nearest (n m i : Z) : Z := ((2 * i + 1) * n) / (2 * m).

Definition identity_transform : Affine.t := Affine.mk 1 0 0 0 1 0.

(** A float32 GeoTIFF of [rows] by [cols] pixels with the given pixel grid
    and block windows; its block shape is that of the first block. *)
Definition dataset_on (rows cols : Z) (px : Z -> Z -> Pixel)
    (blocks : list ((Z * Z) * Window.t)) : DatasetReader :=
  {| src_height := rows;
     src_width := cols;
     src_transform := identity_transform;
     src_driver := "GTiff";
     src_dtype := "float32";
     src_count := 1;
     src_nodata := None;
     src_crs := None;
     block_shapes :=
       match blocks with
       | (_, w) :: _ => [(Window.height w, Window.width w)]
       | [] => []
       end;
     src_tiled := false;
     src_compress := None;
     src_interleave := None;
     src_pixels := px;
     block_windows := blocks |}.

Definition dataset_of (rows cols : Z) (px : list (list Pixel))
    (blocks : list ((Z * Z) * Window.t)) : DatasetReader :=
  dataset_on rows cols (pixels_of_rows px) blocks.

Definition single_file (src : DatasetReader) (path : string)
  : option DatasetReader :=
  if String.eqb path "input.tif" then Some src else None.

(** The 4x4 source of the end-to-end example: one 4x4 block, all valid. *)
Definition example_values : list (list Q) :=
  [[0; 20; 40; 60]; [80; 100; 0; 20]; [40; 60; 80; 100]; [0; 0; 0; 0]]%Q.

Definition example_window : Window.t := Window.mk 0 0 4 4.

Definition example_src : DatasetReader :=
  dataset_of 4 4 (map (map (fun v => mkPixel v true)) example_values)
    [((0, 0), example_window)].

Definition example_args : Args := mkArgs "input.tif" "mask_40.tif" (4 # 10) 0.

(** The same grid cut into four 2x2 blocks. *)
Definition quartered_src : DatasetReader :=
  dataset_of 4 4 (map (map (fun v => mkPixel v true)) example_values)
    [((0, 0), Window.mk 0 0 2 2); ((0, 1), Window.mk 2 0 2 2);
     ((1, 0), Window.mk 0 2 2 2); ((1, 1), Window.mk 2 2 2 2)].

(** Valid pixels with whole values between 0 and 100. *)
Definition ramp (r c : Z) : Pixel :=
  mkPixel (inject_Z ((3 * r + 5 * c) mod 101)) true.

(** A 32x32 source in four 16x16 tiles. *)
Definition tiled_src : DatasetReader :=
  dataset_on 32 32 ramp
    [((0, 0), Window.mk 0 0 16 16); ((0, 1), Window.mk 16 0 16 16);
     ((1, 0), Window.mk 0 16 16 16); ((1, 1), Window.mk 16 16 16 16)].

(** A 20x20 source stored as a single strip of 20 rows. *)
Definition striped_src : DatasetReader :=
  dataset_on 20 20 ramp [((0, 0), Window.mk 0 0 20 20)].

(** A 40x40 source in 16x16 tiles; the tiles on the right and bottom edges
    are 8 pixels wide or high. *)
Definition ragged_src : DatasetReader :=
  dataset_on 40 40 ramp
    [((0, 0), Window.mk 0 0 16 16); ((0, 1), Window.mk 16 0 16 16);
     ((0, 2), Window.mk 32 0 8 16);
     ((1, 0), Window.mk 0 16 16 16); ((1, 1), Window.mk 16 16 16 16);
     ((1, 2), Window.mk 32 16 8 16);
     ((2, 0), Window.mk 0 32 16 8); ((2, 1), Window.mk 16 32 16 8);
     ((2, 2), Window.mk 32 32 8 8)].


(** A 1x2 source whose second pixel is no-data with the sentinel 255. *)
Definition nodata_src : DatasetReader :=
  dataset_of 1 2 [[mkPixel (1 # 2) true; mkPixel 255 false]]
    [((0, 0), Window.mk 0 0 2 1)].

(** A 1x1 source whose only pixel is no-data. *)
Definition all_nodata_src : DatasetReader :=
  dataset_of 1 1 [[mkPixel 255 false]] [((0, 0), Window.mk 0 0 1 1)].

(** A source whose block enumeration is empty. *)
Definition empty_src : DatasetReader := dataset_of 0 0 [] [].


(** The profile the output is opened with, lines 73-87, as a function of
    the source and the factor. *)
Definition opened_profile (src : DatasetReader) (overview : Z) : Profile :=
  if downsampling overview then
    resize (force_uint8 (profile src))
      (Z.max 1 (src_height src / overview))
      (Z.max 1 (src_width src / overview))
      (Affine.mul (src_transform src)
         (Affine.scale (inject_Z overview) (inject_Z overview)))
  else force_uint8 (profile src).

(** What the mask domain asks of an event: a write carries only 0 and 1,
    and the output is opened with unsigned 8-bit samples. *)
Definition is_bit (v : Z) : Prop := v = 0 \/ v = 1.

Definition writes_bits (ev : Event) : Prop :=
  match ev with
  | EvWrite _ mask => Forall (Forall is_bit) mask
  | EvOpen _ p => p_dtype p = "uint8"%string
  | _ => True
  end.

(** What running at full resolution asks of an event: the output keeps the
    source's dimensions and transform, and no read requests a shape. *)
Definition full_resolution (src : DatasetReader) (ev : Event) : Prop :=
  match ev with
  | EvOpen _ p =>
      p_height p = src_height src /\ p_width p = src_width src /\
      p_transform p = src_transform src
  | EvRead _ _ out_shape => out_shape = None
  | _ => True
  end.

(** Two writes at the same window, the first cell-wise at most the second
    and with no more 1-valued cells. *)
Definition write_le (wm2 wm1 : Window.t * list (list Z)) : Prop :=
  fst wm2 = fst wm1 /\ mask_le (snd wm2) (snd wm1) /\
  (count_ones (snd wm2) <= count_ones (snd wm1))%nat.

(** ** Further observations *)

(** The outputs opened by a trace, in order. *)
Fixpoint opened (tr : list Event) : list (string * Profile) :=
  match tr with
  | [] => []
  | EvOpen path p :: tr' => (path, p) :: opened tr'
  | _ :: tr' => opened tr'
  end.

(** The unmasked reads of a trace (those of the block loop), in order. *)
Fixpoint block_reads (tr : list Event) : list (Window.t * option (Z * Z)) :=
  match tr with
  | [] => []
  | EvRead w false out_shape :: tr' => (w, out_shape) :: block_reads tr'
  | _ :: tr' => block_reads tr'
  end.

(** What [dst.write(mask, 1, window=w)] leaves in the output: the value a
    cell holds after a sequence of windowed writes, [None] where nothing was
    written.  A later write replaces an earlier one. *)
Fixpoint output_cell (ws : list (Window.t * list (list Z))) (r c : Z)
  : option Z :=
  match ws with
  | [] => None
  | (w, mask) :: ws' =>
      match output_cell ws' r c with
      | Some v => Some v
      | None =>
          if Window.covers w r c
          then Some (cell mask (r - Window.row_off w) (c - Window.col_off w))
          else None
      end
  end.

(** The cell [(r, c)] belongs to a grid of [rows] by [cols] cells. *)
Definition in_grid (rows cols r c : Z) : bool :=
  (0 <=? r) && (r <? rows) && (0 <=? c) && (c <? cols).

(** A non-empty window inside a grid of [rows] by [cols] cells. *)
Definition inside (rows cols : Z) (w : Window.t) : Prop :=
  0 <= Window.row_off w /\ 0 <= Window.col_off w /\
  0 < Window.height w /\ 0 < Window.width w /\
  Window.row_off w + Window.height w <= rows /\
  Window.col_off w + Window.width w <= cols.

(** The test of line 102 for a block window and a factor. *)
Definition skipped (overview : Z) (w : Window.t) : bool :=
  (Window.height w / overview <=? 0) || (Window.width w / overview <=? 0).

(** The destination window of lines 116-121 for a mask of the requested
    shape. *)
Definition dest_window (overview : Z) (w : Window.t) : Window.t :=
  Window.mk (Window.col_off w / overview) (Window.row_off w / overview)
            (Window.width w / overview) (Window.height w / overview).

(** The offsets and sizes of a window are multiples of the factor. *)
Definition aligned (overview : Z) (w : Window.t) : Prop :=
  (overview | Window.row_off w) /\ (overview | Window.col_off w) /\
  (overview | Window.height w) /\ (overview | Window.width w).

(** The no-data source with 0 stored at the invalid pixel instead of 255. *)
Definition nodata_src_zero : DatasetReader :=
  dataset_of 1 2 [[mkPixel (1 # 2) true; mkPixel 0 false]]
    [((0, 0), Window.mk 0 0 2 1)].






(** ** Basic facts: ranges, arrays, the monad *)

Lemma length_zrange (n : Z) : length (zrange n) = Z.to_nat n.
Proof. unfold zrange. now rewrite length_map, length_seq. Qed.

Lemma zrange_head (n : Z) : 0 < n -> exists rest, zrange n = 0 :: rest.
Proof.
  intros Hn. unfold zrange.
  destruct (Z.to_nat n) as [|k] eqn:Ek; [lia|].
  simpl. now exists (map Z.of_nat (seq 1 k)).
Qed.

Lemma nth_zrange_map {A : Type} (g : Z -> A) (n i : Z) (dflt : A) :
  0 <= i < n -> nth (Z.to_nat i) (map g (zrange n)) dflt = g i.
Proof.
  intros Hi. unfold zrange. rewrite map_map.
  rewrite nth_indep with (d' := g (Z.of_nat 0)).
  - rewrite (map_nth (fun k => g (Z.of_nat k)) (seq 0 (Z.to_nat n)) 0%nat).
    rewrite seq_nth by lia. simpl. f_equal. lia.
  - rewrite length_map, length_seq. lia.
Qed.

Lemma shape_grid {A : Type} (g : Z -> Z -> A) (rows cols : Z) :
  0 < rows -> 0 <= cols ->
  shape (map (fun i => map (g i) (zrange cols)) (zrange rows)) = (rows, cols).
Proof.
  intros Hr Hc. unfold shape.
  destruct (zrange_head rows Hr) as [rest E].
  rewrite length_map, length_zrange.
  rewrite E. simpl. rewrite length_map, length_zrange.
  f_equal; lia.
Qed.

Lemma keep_unmasked_map (ps : list Pixel) :
  keep_unmasked (map stored ps) (map (fun p => negb (is_valid p)) ps)
  = map stored (filter is_valid ps).
Proof.
  induction ps as [|p ps IH]; simpl; [reflexivity|].
  destruct (is_valid p); simpl; now rewrite IH.
Qed.

Lemma for_each_trace {A : Type} (body : A -> M unit) (items : list A) :
  (forall x, snd (body x) = inr tt) ->
  for_each body items = (flat_map (fun x => fst (body x)) items, inr tt).
Proof.
  intros Hbody. induction items as [|x rest IH]; simpl; [reflexivity|].
  unfold bind. specialize (Hbody x).
  destruct (body x) as [tr res]. simpl in Hbody. subst res.
  now rewrite IH.
Qed.

Lemma Qmult_1_r_eq (x : Q) : (x * 1)%Q = x.
Proof.
  destruct x as [n d]. unfold Qmult. simpl.
  now rewrite Z.mul_1_r, Pos.mul_1_r.
Qed.

Lemma scale_guess_cases (data_max : Q) :
  scale_guess data_max = 1%Q \/ scale_guess data_max = 100%Q \/
  scale_guess data_max = 10000%Q.
Proof.
  unfold scale_guess.
  destruct (Qle_bool data_max 1); [now left|].
  destruct (Qle_bool data_max 110); [now right; left|].
  destruct (Qle_bool data_max 11000); [now right; right|now left].
Qed.

Lemma scale_guess_nonneg (data_max : Q) : (0 <= scale_guess data_max)%Q.
Proof.
  destruct (scale_guess_cases data_max) as [E|[E|E]]; rewrite E;
    unfold Qle; simpl; lia.
Qed.

(** ** The loop body and the run, unfolded *)

Section Unfolding.

Variable nearest : Z -> Z -> Z -> Z.

Lemma read_cells_project {A : Type} (src : DatasetReader) (w : Window.t)
    (out_shape : option (Z * Z)) (get : Pixel -> A) :
  read_cells nearest src w out_shape get
  = map (map get) (read_cells nearest src w out_shape (fun p => p)).
Proof.
  unfold read_cells. destruct out_shape as [[rows cols]|];
    rewrite map_map; apply map_ext; intros i; now rewrite map_map.
Qed.

(** The masked read of a window keeps exactly the valid pixels' values. *)
Lemma compressed_read (src : DatasetReader) (w : Window.t) :
  compressed (read_value nearest src w true None) = valid_values src w.
Proof.
  unfold read_value, compressed, valid_values.
  rewrite (read_cells_project src w None stored).
  rewrite (read_cells_project src w None (fun p => negb (is_valid p))).
  rewrite <- !concat_map. apply keep_unmasked_map.
Qed.

Lemma process_block_returns (src : DatasetReader) (thr_native : Q)
    (overview : Z) (blk : (Z * Z) * Window.t) :
  snd (process_block nearest src thr_native overview blk) = inr tt.
Proof.
  destruct blk as [ji w]. unfold process_block.
  destruct (downsampling overview); [|reflexivity].
  destruct ((Window.height w / overview <=? 0)
            || (Window.width w / overview <=? 0)); reflexivity.
Qed.

Lemma process_block_full (src : DatasetReader) (thr_native : Q)
    (overview : Z) (ji : Z * Z) (w : Window.t) :
  downsampling overview = false ->
  process_block nearest src thr_native overview (ji, w)
  = ([EvRead w false None;
      EvWrite w (ge_mask (read_value nearest src w false None) thr_native)],
     inr tt).
Proof. intros E. unfold process_block. now rewrite E. Qed.

Lemma process_block_skip (src : DatasetReader) (thr_native : Q)
    (overview : Z) (ji : Z * Z) (w : Window.t) :
  downsampling overview = true ->
  (Window.height w / overview <=? 0) || (Window.width w / overview <=? 0)
    = true ->
  process_block nearest src thr_native overview (ji, w) = ([], inr tt).
Proof. intros E Hskip. unfold process_block. now rewrite E, Hskip. Qed.

Lemma process_block_decimated (src : DatasetReader) (thr_native : Q)
    (overview : Z) (ji : Z * Z) (w : Window.t) :
  downsampling overview = true ->
  (Window.height w / overview <=? 0) || (Window.width w / overview <=? 0)
    = false ->
  let rows := Window.height w / overview in
  let cols := Window.width w / overview in
  let mask :=
    ge_mask (read_value nearest src w false (Some (rows, cols)))
            thr_native in
  process_block nearest src thr_native overview (ji, w)
  = ([EvRead w false (Some (rows, cols));
      EvWrite (Window.mk (Window.col_off w / overview)
                         (Window.row_off w / overview)
                         (snd (shape mask)) (fst (shape mask)))
              mask],
     inr tt).
Proof. intros E Hskip. unfold process_block. now rewrite E, Hskip. Qed.

(** A run on an empty block enumeration raises at once. *)
Lemma main_empty (fs : string -> option DatasetReader) (args : Args)
    (src : DatasetReader) :
  fs (tif args) = Some src ->
  block_windows src = [] ->
  main nearest fs args
  = ([], inl (RuntimeError "No windows found in the raster.")).
Proof.
  intros Hsrc Hblocks. unfold main, infer_threshold_value.
  now rewrite Hsrc, Hblocks.
Qed.

(** The estimator on a non-empty block enumeration: one masked read of the
    first window, then the heuristic on its valid values. *)
Lemma infer_nonempty (src : DatasetReader) (threshold : Q) (ji : Z * Z)
    (w0 : Window.t) (rest : list ((Z * Z) * Window.t)) :
  block_windows src = (ji, w0) :: rest ->
  let data_max := robust_max (valid_values src w0) in
  let scale := scale_guess data_max in
  infer_threshold_value nearest src threshold
  = ([EvRead w0 true None],
     inr ((threshold * scale)%Q, scale, data_max)).
Proof.
  intros Hblocks. cbv zeta.
  unfold infer_threshold_value. rewrite Hblocks.
  rewrite <- (compressed_read src w0). reflexivity.
Qed.

(** A run on a non-empty block enumeration whose output can be created:
    sample, report, open, one loop body per block, confirm. *)
Lemma main_nonempty (fs : string -> option DatasetReader) (args : Args)
    (src : DatasetReader) (ji : Z * Z) (w0 : Window.t)
    (rest : list ((Z * Z) * Window.t)) :
  fs (tif args) = Some src ->
  block_windows src = (ji, w0) :: rest ->
  creatable (opened_profile src (overview args)) = true ->
  let data_max := robust_max (valid_values src w0) in
  let scale := scale_guess data_max in
  let thr_native := (threshold args * scale)%Q in
  main nearest fs args
  = (EvRead w0 true None
     :: EvInfo data_max scale thr_native
     :: EvOpen (out args) (opened_profile src (overview args))
     :: flat_map
          (fun blk =>
             fst (process_block nearest src thr_native (overview args) blk))
          (block_windows src)
        ++ [EvOk (out args)],
     inr tt).
Proof.
  intros Hsrc Hblocks Hok. cbv zeta.
  unfold main. rewrite Hsrc.
  rewrite (infer_nonempty src (threshold args) ji w0 rest Hblocks).
  cbv zeta. fold (opened_profile src (overview args)).
  unfold open_w. rewrite Hok.
  cbn [bind emit ret app].
  rewrite for_each_trace by apply process_block_returns.
  reflexivity.
Qed.

(** A run whose output profile is refused: it stops at the open of line 92,
    after the sample was read and reported. *)
Lemma main_refused (fs : string -> option DatasetReader) (args : Args)
    (src : DatasetReader) (ji : Z * Z) (w0 : Window.t)
    (rest : list ((Z * Z) * Window.t)) :
  fs (tif args) = Some src ->
  block_windows src = (ji, w0) :: rest ->
  creatable (opened_profile src (overview args)) = false ->
  let data_max := robust_max (valid_values src w0) in
  let scale := scale_guess data_max in
  let thr_native := (threshold args * scale)%Q in
  main nearest fs args
  = ([EvRead w0 true None; EvInfo data_max scale thr_native],
     inl (RasterBlockError
       "The height and width of TIFF dataset blocks must be multiples of 16")).
Proof.
  intros Hsrc Hblocks Hbad. cbv zeta.
  unfold main. rewrite Hsrc.
  rewrite (infer_nonempty src (threshold args) ji w0 rest Hblocks).
  cbv zeta. fold (opened_profile src (overview args)).
  unfold open_w. rewrite Hbad. reflexivity.
Qed.

End Unfolding.

(** ** The definitions at work *)

Example percentile_median :
  (nanpercentile [1; 2; 3; 4; 5] 50 == 3)%Q.
Proof. vm_compute. reflexivity. Qed.

Example missing_input_exits :
  main centre_nearest (single_file example_src)
    (mkArgs "missing.tif" "mask.tif" (4 # 10) 0)
  = ([EvNotFound "missing.tif"], inl (SystemExit 2)).
Proof. reflexivity. Qed.

(** A decimated run: with factor 16 each 16x16 tile becomes one cell of a
    2x2 output. *)
Example decimated_run_writes :
  written (fst (main centre_nearest (single_file tiled_src)
                  (mkArgs "input.tif" "mask.tif" (4 # 10) 16)))
  = [(Window.mk 0 0 1 1, [[1]]); (Window.mk 1 0 1 1, [[1]]);
     (Window.mk 0 1 1 1, [[0]]); (Window.mk 1 1 1 1, [[1]])].
Proof. vm_compute. reflexivity. Qed.

(** Edge tiles narrower than the factor are skipped: of the nine tiles of
    the ragged source only the four full ones are written. *)
Example decimated_run_skips_edges :
  written_windows (fst (main centre_nearest (single_file ragged_src)
                          (mkArgs "input.tif" "mask.tif" (4 # 10) 16)))
  = [Window.mk 0 0 1 1; Window.mk 1 0 1 1;
     Window.mk 0 1 1 1; Window.mk 1 1 1 1].
Proof. vm_compute. reflexivity. Qed.

(** A source stored in strips is refused at the open. *)
Example striped_source_refused :
  creatable (opened_profile striped_src 0) = false /\
  creatable (opened_profile tiled_src 0) = true.
Proof. split; reflexivity. Qed.

(** ** Scale estimation *)

(** C3.  The scale classification is first-match-wins over the ordered
    buckets: a sampled maximum at most 1 gives scale 1; otherwise at most
    110 gives 100; otherwise at most 11000 gives 10000; otherwise 1.  The
    boundary values 1.0, 1.000001, 110.0, 110.000001, 11000.0, 11000.000001
    and 50000 map to 1, 100, 100, 10000, 10000, 1 and 1. *)
Theorem scale_guess_first_match (data_max : Q) :
  scale_guess data_max = first_match scale_buckets 1 data_max /\
  ((data_max <= 1 /\ scale_guess data_max = 1)
   \/ (~ data_max <= 1 /\ data_max <= 110 /\ scale_guess data_max = 100)
   \/ (~ data_max <= 1 /\ ~ data_max <= 110 /\ data_max <= 11000
       /\ scale_guess data_max = 10000)
   \/ (~ data_max <= 1 /\ ~ data_max <= 110 /\ ~ data_max <= 11000
       /\ scale_guess data_max = 1))%Q /\
  (scale_guess 1 = 1
   /\ scale_guess (1000001 # 1000000) = 100
   /\ scale_guess 110 = 100
   /\ scale_guess (110000001 # 1000000) = 10000
   /\ scale_guess 11000 = 10000
   /\ scale_guess (11000000001 # 1000000) = 1
   /\ scale_guess 50000 = 1)%Q.
Proof.
  split; [reflexivity|]. split.
  - unfold scale_guess.
    destruct (Qle_bool data_max 1) eqn:E1.
    { left. split; [now apply Qle_bool_iff|reflexivity]. }
    assert (N1 : ~ (data_max <= 1)%Q).
    { intros H. apply Qle_bool_iff in H. congruence. }
    destruct (Qle_bool data_max 110) eqn:E2.
    { right; left. repeat split; [assumption|now apply Qle_bool_iff]. }
    assert (N2 : ~ (data_max <= 110)%Q).
    { intros H. apply Qle_bool_iff in H. congruence. }
    destruct (Qle_bool data_max 11000) eqn:E3.
    { right; right; left.
      repeat split; [assumption|assumption|now apply Qle_bool_iff]. }
    right; right; right. repeat split; try assumption.
    intros H. apply Qle_bool_iff in H. congruence.
  - repeat split; reflexivity.
Qed.

Lemma in_zrange (n i : Z) : In i (zrange n) -> 0 <= i < n.
Proof.
  unfold zrange. rewrite in_map_iff. intros [k [<- Hk]].
  apply in_seq in Hk. lia.
Qed.

Lemma filter_none {A : Type} (keep : A -> bool) (l : list A) :
  (forall x, In x l -> keep x = false) -> filter keep l = [].
Proof.
  induction l as [|x l IH]; intros Hall; simpl; [reflexivity|].
  rewrite (Hall x (or_introl eq_refl)).
  apply IH. intros y Hy. apply Hall. now right.
Qed.

Lemma valid_values_none (src : DatasetReader) (w : Window.t) :
  (forall i j,
      0 <= i < Window.height w -> 0 <= j < Window.width w ->
      is_valid (src_pixels src (Window.row_off w + i) (Window.col_off w + j))
        = false) ->
  valid_values src w = [].
Proof.
  intros Hinv. unfold valid_values.
  rewrite filter_none; [reflexivity|].
  intros p Hp. apply in_concat in Hp. destruct Hp as [row [Hrow Hp]].
  apply in_map_iff in Hrow. destruct Hrow as [i [<- Hi]].
  apply in_map_iff in Hp. destruct Hp as [j [<- Hj]].
  apply Hinv; now apply in_zrange.
Qed.

(** C9.  If the sampled block contains no valid pixels, the estimator sets
    the sampled maximum to 1, which falls into the first bucket, so the
    scale factor is 1 and the native threshold is the requested fraction
    unchanged. *)
Theorem infer_without_valid_pixels (nearest : Z -> Z -> Z -> Z)
    (src : DatasetReader) (threshold : Q) (ji : Z * Z) (w : Window.t)
    (rest : list ((Z * Z) * Window.t)) :
  block_windows src = (ji, w) :: rest ->
  (forall i j,
      0 <= i < Window.height w -> 0 <= j < Window.width w ->
      is_valid (src_pixels src (Window.row_off w + i) (Window.col_off w + j))
        = false) ->
  robust_max (valid_values src w) = 1%Q /\
  infer_threshold_value nearest src threshold
  = ([EvRead w true None], inr (threshold, 1%Q, 1%Q)).
Proof.
  intros Hblocks Hinv.
  rewrite (infer_nonempty nearest src threshold ji w rest Hblocks).
  rewrite (valid_values_none src w Hinv).
  split; [reflexivity|].
  cbv zeta. change (scale_guess (robust_max [])) with 1%Q.
  now rewrite Qmult_1_r_eq.
Qed.

Lemma infer_without_valid_pixels_witness :
  robust_max (valid_values all_nodata_src (Window.mk 0 0 1 1)) = 1%Q /\
  infer_threshold_value centre_nearest all_nodata_src (4 # 10)
  = ([EvRead (Window.mk 0 0 1 1) true None], inr (4 # 10, 1%Q, 1%Q)).
Proof.
  apply (infer_without_valid_pixels centre_nearest all_nodata_src (4 # 10)
           (0, 0) (Window.mk 0 0 1 1) []).
  - reflexivity.
  - intros i j Hi Hj. simpl in Hi, Hj.
    assert (i = 0) by lia. assert (j = 0) by lia. subst. reflexivity.
Defined.

(** C5.  If the source's block enumeration yields no window, the run fails
    with the error raised by the scale-estimation step, before any event:
    the output is never opened and nothing is written. *)
Theorem empty_source_raises_before_output (nearest : Z -> Z -> Z -> Z)
    (fs : string -> option DatasetReader) (args : Args)
    (src : DatasetReader) :
  fs (tif args) = Some src ->
  block_windows src = [] ->
  infer_threshold_value nearest src (threshold args)
  = ([], inl (RuntimeError "No windows found in the raster.")) /\
  main nearest fs args
  = ([], inl (RuntimeError "No windows found in the raster.")).
Proof.
  intros Hsrc Hblocks. split.
  - unfold infer_threshold_value. now rewrite Hblocks.
  - now apply main_empty with (src := src).
Qed.

Lemma empty_source_raises_before_output_witness :
  infer_threshold_value centre_nearest empty_src (threshold example_args)
  = ([], inl (RuntimeError "No windows found in the raster.")) /\
  main centre_nearest (single_file empty_src) example_args
  = ([], inl (RuntimeError "No windows found in the raster.")).
Proof.
  apply (empty_source_raises_before_output centre_nearest
           (single_file empty_src) example_args empty_src); reflexivity.
Defined.

(** ** Block planning under downsampling *)

Lemma shape_map {A B : Type} (g : A -> B) (rows : list (list A)) :
  shape (map (map g) rows) = shape rows.
Proof.
  unfold shape. rewrite length_map.
  destruct rows as [|row rows]; simpl; [reflexivity|].
  now rewrite length_map.
Qed.

Lemma downsampling_above_one (overview : Z) :
  1 < overview -> downsampling overview = true.
Proof.
  intros H. unfold downsampling.
  apply andb_true_iff. split; [apply negb_true_iff|]; lia.
Qed.

Lemma downsampling_at_most_one (overview : Z) :
  overview <= 1 -> downsampling overview = false.
Proof.
  intros H. unfold downsampling.
  apply andb_false_iff. right. lia.
Qed.

(** C7.  For a source block window [w] and a factor above 1, the read asks
    for the target shape [(height w / factor, width w / factor)]; if either
    dimension is 0 the block is skipped and contributes nothing; otherwise
    the mask has the target shape and is written at row offset
    [row_off w / factor], column offset [col_off w / factor], with the
    target shape's height and width. *)
Theorem decimated_block_plan (nearest : Z -> Z -> Z -> Z)
    (src : DatasetReader) (thr_native : Q) (overview : Z) (ji : Z * Z)
    (w : Window.t) :
  1 < overview ->
  0 <= Window.height w ->
  0 <= Window.width w ->
  let rows := Window.height w / overview in
  let cols := Window.width w / overview in
  (rows = 0 \/ cols = 0 ->
   process_block nearest src thr_native overview (ji, w) = ([], inr tt)) /\
  (rows <> 0 -> cols <> 0 ->
   exists mask,
     shape mask = (rows, cols) /\
     process_block nearest src thr_native overview (ji, w)
     = ([EvRead w false (Some (rows, cols));
         EvWrite (Window.mk (Window.col_off w / overview)
                            (Window.row_off w / overview) cols rows)
                 mask],
        inr tt)).
Proof.
  intros Hov Hh Hw rows cols.
  pose proof (downsampling_above_one overview Hov) as Hds.
  assert (Hrows : 0 <= rows) by (apply Z.div_pos; lia).
  assert (Hcols : 0 <= cols) by (apply Z.div_pos; lia).
  split.
  - intros Hzero. apply process_block_skip; [assumption|].
    fold rows cols. apply orb_true_iff.
    destruct Hzero as [E|E]; [left|right]; lia.
  - intros Hr Hc.
    assert (Hkeep : (rows <=? 0) || (cols <=? 0) = false).
    { apply orb_false_iff. split; lia. }
    exists (ge_mask (read_value nearest src w false (Some (rows, cols)))
                    thr_native).
    assert (Hshape :
      shape (ge_mask (read_value nearest src w false (Some (rows, cols)))
                     thr_native) = (rows, cols)).
    { unfold ge_mask, read_value, array_data, read_cells.
      rewrite shape_map. apply shape_grid; lia. }
    split; [exact Hshape|].
    rewrite (process_block_decimated nearest src thr_native overview ji w
               Hds Hkeep).
    fold rows cols. cbv zeta. rewrite Hshape. reflexivity.
Qed.

Lemma decimated_block_plan_witness :
  (2 / 2 = 0 \/ 2 / 2 = 0 ->
   process_block centre_nearest quartered_src 40 2
     ((0, 0), Window.mk 0 0 2 2) = ([], inr tt)) /\
  (2 / 2 <> 0 -> 2 / 2 <> 0 ->
   exists mask,
     shape mask = (2 / 2, 2 / 2) /\
     process_block centre_nearest quartered_src 40 2
       ((0, 0), Window.mk 0 0 2 2)
     = ([EvRead (Window.mk 0 0 2 2) false (Some (2 / 2, 2 / 2));
         EvWrite (Window.mk (0 / 2) (0 / 2) (2 / 2) (2 / 2)) mask],
        inr tt)).
Proof.
  apply (decimated_block_plan centre_nearest quartered_src 40 2 (0, 0)
           (Window.mk 0 0 2 2)); simpl; lia.
Defined.

(** ** The mask value domain *)

Lemma ge_mask_bits (data : Array) (thr : Q) :
  Forall (Forall is_bit) (ge_mask data thr).
Proof.
  unfold ge_mask. apply Forall_map, Forall_forall. intros row _.
  apply Forall_map, Forall_forall. intros v _.
  unfold is_bit, astype_uint8. destruct (Qle_bool thr v); auto.
Qed.

Lemma process_block_bits (nearest : Z -> Z -> Z -> Z) (src : DatasetReader)
    (thr_native : Q) (overview : Z) (blk : (Z * Z) * Window.t) :
  Forall writes_bits (fst (process_block nearest src thr_native overview blk)).
Proof.
  destruct blk as [ji w].
  destruct (downsampling overview) eqn:Hds.
  - destruct ((Window.height w / overview <=? 0)
              || (Window.width w / overview <=? 0)) eqn:Hskip.
    + rewrite process_block_skip by assumption. constructor.
    + rewrite process_block_decimated by assumption. simpl.
      repeat constructor. apply ge_mask_bits.
  - rewrite process_block_full by assumption. simpl.
    repeat constructor. apply ge_mask_bits.
Qed.

(** C8.  Whatever the input and the parameters, every cell the run writes
    to the output is 0 or 1, and the output is opened with unsigned 8-bit
    samples; no other value is ever written. *)
Theorem mask_value_domain (nearest : Z -> Z -> Z -> Z)
    (fs : string -> option DatasetReader) (args : Args) :
  Forall writes_bits (fst (main nearest fs args)).
Proof.
  destruct (fs (tif args)) as [src|] eqn:Hsrc.
  - destruct (block_windows src) as [|[ji w0] rest] eqn:Hblocks.
    + rewrite (main_empty nearest fs args src Hsrc Hblocks). constructor.
    + destruct (creatable (opened_profile src (overview args))) eqn:Hok.
      * rewrite (main_nonempty nearest fs args src ji w0 rest Hsrc Hblocks
                   Hok).
        cbn [fst]. constructor; [exact I|]. constructor; [exact I|].
        constructor.
        { unfold writes_bits, opened_profile.
          destruct (downsampling (overview args)); reflexivity. }
        apply Forall_app. split; [|repeat constructor].
        apply Forall_flat_map, Forall_forall. intros blk _.
        apply process_block_bits.
      * rewrite (main_refused nearest fs args src ji w0 rest Hsrc Hblocks
                   Hok).
        cbn [fst]. repeat constructor.
  - unfold main. rewrite Hsrc. simpl. repeat constructor.
Qed.

(** ** The end-to-end example *)

(** In binary64 the product [0.4 * 100.0] is exactly [40.0], so the
    comparison [40 >= thr_native] of the example has the same outcome in
    the script's arithmetic as over the rationals. *)
Remark binary64_example_threshold :
  PrimFloat.eqb (PrimFloat.mul 0x1.999999999999ap-2%float 100%float)
    40%float = true.
Proof. vm_compute. reflexivity. Qed.

(** C2.  On the 4x4 source with one 4x4 block and the values of the
    example, fraction 0.4 and no downsampling, the estimate is as stated:
    sampled maximum 100, scale factor 100, native threshold 40; and the
    loop body on that block would write exactly the mask
    [[0,0,1,1],[1,1,0,0],[1,1,1,1],[0,0,0,0]].  But the run never reaches
    the loop: the profile copied from the source keeps its 4x4 block size
    while [tiled] is forced, so the open of line 92 is refused and nothing
    is written. *)
Theorem end_to_end_example_refused (nearest : Z -> Z -> Z -> Z) :
  exists data_max scale thr_native : Q,
    (data_max == 100 /\ scale == 100 /\ thr_native == 40)%Q /\
    infer_threshold_value nearest example_src (4 # 10)
    = ([EvRead example_window true None],
       inr (thr_native, scale, data_max)) /\
    process_block nearest example_src thr_native 0 ((0, 0), example_window)
    = ([EvRead example_window false None;
        EvWrite example_window
          [[0; 0; 1; 1]; [1; 1; 0; 0]; [1; 1; 1; 1]; [0; 0; 0; 0]]],
       inr tt) /\
    p_tiled (opened_profile example_src 0) = true /\
    p_blockxsize (opened_profile example_src 0) = Some 4 /\
    p_blockysize (opened_profile example_src 0) = Some 4 /\
    main nearest (single_file example_src) example_args
    = ([EvRead example_window true None;
        EvInfo data_max scale thr_native],
       inl (RasterBlockError
         "The height and width of TIFF dataset blocks must be multiples of 16")).
Proof.
  do 3 eexists.
  split; [|split; [|split; [|split; [|split; [|split]]]]]; cycle 1.
  - vm_compute. reflexivity.
  - vm_compute. reflexivity.
  - reflexivity.
  - reflexivity.
  - reflexivity.
  - vm_compute. reflexivity.
  - repeat split; vm_compute; reflexivity.
Qed.

(** ** Writes of a run *)

Lemma written_app (tr1 tr2 : list Event) :
  written (tr1 ++ tr2) = written tr1 ++ written tr2.
Proof.
  induction tr1 as [|ev tr1 IH]; simpl; [reflexivity|].
  destruct ev; simpl; now rewrite IH.
Qed.

Lemma written_flat_map {A : Type} (body : A -> list Event) (items : list A) :
  written (flat_map body items) = flat_map (fun x => written (body x)) items.
Proof.
  induction items as [|x rest IH]; simpl; [reflexivity|].
  now rewrite written_app, IH.
Qed.

Lemma flat_map_singleton {A B : Type} (g : A -> B) (items : list A) :
  flat_map (fun x => [g x]) items = map g items.
Proof.
  induction items as [|x rest IH]; simpl; [reflexivity|]. now rewrite IH.
Qed.

(** A run whose output is refused writes nothing. *)
Lemma written_refused (nearest : Z -> Z -> Z -> Z)
    (fs : string -> option DatasetReader) (args : Args)
    (src : DatasetReader) :
  fs (tif args) = Some src ->
  creatable (opened_profile src (overview args)) = false ->
  written (fst (main nearest fs args)) = [].
Proof.
  intros Hsrc Hbad.
  destruct (block_windows src) as [|[ji w0] rest] eqn:Hblocks.
  - now rewrite (main_empty nearest fs args src Hsrc Hblocks).
  - now rewrite (main_refused nearest fs args src ji w0 rest Hsrc Hblocks
                   Hbad).
Qed.

Section FullResolution.

Variable nearest : Z -> Z -> Z -> Z.
Variable fs : string -> option DatasetReader.
Variable args : Args.
Variable src : DatasetReader.
Hypothesis Hsrc : fs (tif args) = Some src.
Hypothesis Hfull : downsampling (overview args) = false.

(** Without downsampling the writes of a run whose output was created are,
    block by block, the thresholded full-resolution read at the block's own
    window. *)
Lemma written_full (ji : Z * Z) (w0 : Window.t)
    (rest : list ((Z * Z) * Window.t)) :
  block_windows src = (ji, w0) :: rest ->
  creatable (opened_profile src (overview args)) = true ->
  written (fst (main nearest fs args))
  = map (fun blk =>
           (snd blk,
            ge_mask (read_value nearest src (snd blk) false None)
              (threshold args
               * scale_guess (robust_max (valid_values src w0)))%Q))
        (block_windows src).
Proof.
  intros Hblocks Hok.
  rewrite (main_nonempty nearest fs args src ji w0 rest Hsrc Hblocks Hok).
  cbn [fst written]. rewrite written_app, written_flat_map.
  cbn [written]. rewrite app_nil_r.
  rewrite <- flat_map_singleton. apply flat_map_ext. intros [ji' w].
  now rewrite process_block_full by exact Hfull.
Qed.

Lemma full_resolution_events :
  Forall (full_resolution src) (fst (main nearest fs args)).
Proof.
  destruct (block_windows src) as [|[ji w0] rest] eqn:Hblocks.
  - rewrite (main_empty nearest fs args src Hsrc Hblocks). constructor.
  - destruct (creatable (opened_profile src (overview args))) eqn:Hok.
    + rewrite (main_nonempty nearest fs args src ji w0 rest Hsrc Hblocks
                 Hok).
      cbn [fst]. constructor; [reflexivity|]. constructor; [exact I|].
      constructor.
      { unfold opened_profile. rewrite Hfull. simpl. auto. }
      apply Forall_app. split; [|repeat constructor].
      apply Forall_flat_map, Forall_forall. intros [ji' w] _.
      rewrite process_block_full by exact Hfull. simpl.
      repeat constructor.
    + rewrite (main_refused nearest fs args src ji w0 rest Hsrc Hblocks
                 Hok).
      cbn [fst]. repeat constructor.
Qed.

End FullResolution.

(** A run that returns had a raster at its input path, with at least one
    block, and an output profile the collaborator accepts. *)
Lemma returned_inv (nearest : Z -> Z -> Z -> Z)
    (fs : string -> option DatasetReader) (args : Args) :
  snd (main nearest fs args) = inr tt ->
  exists src ji w0 rest,
    fs (tif args) = Some src /\
    block_windows src = (ji, w0) :: rest /\
    creatable (opened_profile src (overview args)) = true.
Proof.
  intros Hret.
  destruct (fs (tif args)) as [src|] eqn:Hsrc.
  - destruct (block_windows src) as [|[ji w0] rest] eqn:Hblocks.
    + rewrite (main_empty nearest fs args src Hsrc Hblocks) in Hret.
      discriminate Hret.
    + destruct (creatable (opened_profile src (overview args))) eqn:Hok.
      * now exists src, ji, w0, rest.
      * rewrite (main_refused nearest fs args src ji w0 rest Hsrc Hblocks
                   Hok) in Hret.
        discriminate Hret.
  - unfold main in Hret. rewrite Hsrc in Hret. discriminate Hret.
Qed.

(** ** Factors at most 1 *)

Lemma opened_profile_full (src : DatasetReader) (overview : Z) :
  downsampling overview = false ->
  opened_profile src overview = force_uint8 (profile src).
Proof. intros Hfull. unfold opened_profile. now rewrite Hfull. Qed.

Lemma main_overview_irrelevant (nearest : Z -> Z -> Z -> Z)
    (fs : string -> option DatasetReader) (args : Args) :
  downsampling (overview args) = false ->
  main nearest fs args
  = main nearest fs (mkArgs (tif args) (out args) (threshold args) 0).
Proof.
  intros Hfull.
  destruct (fs (tif args)) as [src|] eqn:Hsrc.
  - destruct (block_windows src) as [|[ji w0] rest] eqn:Hblocks.
    + rewrite (main_empty nearest fs args src Hsrc Hblocks).
      now rewrite (main_empty nearest fs (mkArgs _ _ _ 0) src Hsrc Hblocks).
    + pose proof (opened_profile_full src (overview args) Hfull) as Hp.
      pose proof (opened_profile_full src 0 eq_refl) as Hp0.
      destruct (creatable (force_uint8 (profile src))) eqn:Hok.
      * rewrite (main_nonempty nearest fs args src ji w0 rest Hsrc Hblocks)
          by (now rewrite Hp).
        rewrite (main_nonempty nearest fs (mkArgs _ _ _ 0) src ji w0 rest
                   Hsrc Hblocks) by (cbn [overview]; now rewrite Hp0).
        cbn [tif out threshold overview]. rewrite Hp, Hp0.
        do 4 f_equal. f_equal. apply flat_map_ext. intros [ji' w].
        rewrite process_block_full by exact Hfull.
        now rewrite process_block_full by reflexivity.
      * rewrite (main_refused nearest fs args src ji w0 rest Hsrc Hblocks)
          by (now rewrite Hp).
        now rewrite (main_refused nearest fs (mkArgs _ _ _ 0) src ji w0 rest
                       Hsrc Hblocks) by (cbn [overview]; now rewrite Hp0).
  - unfold main. cbn [tif out threshold overview]. now rewrite Hsrc.
Qed.

(** C10.  Every factor at most 1, the default 0 and the negative integers
    included, is treated as no downsampling: the run is the run with factor
    0, the output keeps the source's dimensions and transform, every read
    is at full resolution, and each mask written is the thresholded block
    at the block's own window; a run that returns has written every block,
    in order. *)
Theorem factor_at_most_one_is_full_resolution
    (nearest : Z -> Z -> Z -> Z) (fs : string -> option DatasetReader)
    (args : Args) (src : DatasetReader) :
  overview args <= 1 ->
  fs (tif args) = Some src ->
  main nearest fs args
  = main nearest fs (mkArgs (tif args) (out args) (threshold args) 0) /\
  Forall (full_resolution src) (fst (main nearest fs args)) /\
  exists thr_native,
    let block_write := fun blk : (Z * Z) * Window.t =>
      (snd blk,
       ge_mask (read_value nearest src (snd blk) false None) thr_native) in
    (forall wm,
        In wm (written (fst (main nearest fs args))) ->
        In wm (map block_write (block_windows src))) /\
    (snd (main nearest fs args) = inr tt ->
     written (fst (main nearest fs args))
     = map block_write (block_windows src)).
Proof.
  intros Hov Hsrc.
  pose proof (downsampling_at_most_one (overview args) Hov) as Hfull.
  split; [now apply main_overview_irrelevant|].
  split; [now apply full_resolution_events|].
  destruct (block_windows src) as [|[ji w0] rest] eqn:Hblocks.
  - exists (threshold args). cbv zeta.
    rewrite (main_empty nearest fs args src Hsrc Hblocks).
    split; [intros wm []|discriminate].
  - exists (threshold args
            * scale_guess (robust_max (valid_values src w0)))%Q.
    cbv zeta. rewrite <- Hblocks.
    destruct (creatable (opened_profile src (overview args))) eqn:Hok.
    + rewrite (written_full nearest fs args src Hsrc Hfull ji w0 rest
                 Hblocks Hok).
      split; [intros wm Hwm; exact Hwm|reflexivity].
    + rewrite (written_refused nearest fs args src Hsrc Hok).
      split; [intros wm []|].
      rewrite (main_refused nearest fs args src ji w0 rest Hsrc Hblocks Hok).
      discriminate.
Qed.

Lemma factor_at_most_one_is_full_resolution_witness :
  let args := mkArgs "input.tif" "mask_40.tif" (4 # 10) (-3) in
  let fs := single_file tiled_src in
  main centre_nearest fs args
  = main centre_nearest fs
      (mkArgs (tif args) (out args) (threshold args) 0) /\
  Forall (full_resolution tiled_src) (fst (main centre_nearest fs args)) /\
  exists thr_native,
    let block_write := fun blk : (Z * Z) * Window.t =>
      (snd blk,
       ge_mask (read_value centre_nearest tiled_src (snd blk) false None)
               thr_native) in
    (forall wm,
        In wm (written (fst (main centre_nearest fs args))) ->
        In wm (map block_write (block_windows tiled_src))) /\
    (snd (main centre_nearest fs args) = inr tt ->
     written (fst (main centre_nearest fs args))
     = map block_write (block_windows tiled_src)).
Proof.
  apply (factor_at_most_one_is_full_resolution centre_nearest
           (single_file tiled_src)
           (mkArgs "input.tif" "mask_40.tif" (4 # 10) (-3)) tiled_src).
  - simpl. lia.
  - reflexivity.
Defined.

(** ** Coverage without downsampling *)

Lemma covers_iff (w : Window.t) (r c : Z) :
  Window.covers w r c = true <->
  Window.row_off w <= r < Window.row_off w + Window.height w /\
  Window.col_off w <= c < Window.col_off w + Window.width w.
Proof.
  unfold Window.covers. rewrite !andb_true_iff. lia.
Qed.

Lemma cover_count_cons (w : Window.t) (ws : list Window.t) (r c : Z) :
  cover_count (w :: ws) r c
  = ((if Window.covers w r c then 1 else 0) + cover_count ws r c)%nat.
Proof.
  unfold cover_count. cbn [filter].
  destruct (Window.covers w r c); reflexivity.
Qed.

Lemma cover_count_member (ws : list Window.t) (w : Window.t) (r c : Z) :
  In w ws -> Window.covers w r c = true -> (1 <= cover_count ws r c)%nat.
Proof.
  unfold cover_count. induction ws as [|v ws IH]; intros Hin Hcov.
  - destruct Hin.
  - simpl. destruct Hin as [->|Hin].
    + rewrite Hcov. simpl. lia.
    + specialize (IH Hin Hcov).
      destruct (Window.covers v r c); simpl; lia.
Qed.

Lemma covers_own_corner (w : Window.t) :
  0 < Window.height w -> 0 < Window.width w ->
  Window.covers w (Window.row_off w) (Window.col_off w) = true.
Proof.
  intros Hh Hw. unfold Window.covers.
  repeat (apply andb_true_iff; split); lia.
Qed.

Lemma covers_inside (w : Window.t) (rows cols r c : Z) :
  0 <= Window.row_off w -> 0 <= Window.col_off w ->
  Window.row_off w + Window.height w <= rows ->
  Window.col_off w + Window.width w <= cols ->
  Window.covers w r c = true ->
  0 <= r < rows /\ 0 <= c < cols.
Proof.
  intros Hr Hc Hh Hw Hcov. unfold Window.covers in Hcov.
  repeat (apply andb_true_iff in Hcov; destruct Hcov as [Hcov ?]).
  lia.
Qed.

(** In an exact tiling no window occurs twice. *)
Lemma exact_tiling_NoDup (rows cols : Z) (ws : list Window.t) :
  exact_tiling rows cols ws -> NoDup ws.
Proof.
  intros [Hin Hone].
  assert (Hmost : forall r c, 0 <= r < rows -> 0 <= c < cols ->
                              (cover_count ws r c <= 1)%nat).
  { intros r c Hr Hc. rewrite (Hone r c Hr Hc). lia. }
  clear Hone. induction ws as [|w ws IH]; constructor.
  - intros Hdup.
    destruct (Hin w (or_introl eq_refl)) as (Hr & Hc & Hh & Hw & Hrb & Hcb).
    pose proof (covers_own_corner w Hh Hw) as Hcov.
    pose proof (cover_count_member ws w _ _ Hdup Hcov) as Hge.
    specialize (Hmost (Window.row_off w) (Window.col_off w)
                  ltac:(lia) ltac:(lia)).
    unfold cover_count in Hmost, Hge. simpl in Hmost.
    rewrite Hcov in Hmost. simpl in Hmost. lia.
  - apply IH.
    + intros v Hv. apply Hin. now right.
    + intros r c Hr Hc. specialize (Hmost r c Hr Hc).
      unfold cover_count in *. simpl in Hmost.
      destruct (Window.covers w r c); simpl in Hmost; lia.
Qed.

(** In an exact tiling no window reaches outside the grid. *)
Lemma exact_tiling_outside (rows cols : Z) (ws : list Window.t) (r c : Z) :
  exact_tiling rows cols ws ->
  ~ (0 <= r < rows /\ 0 <= c < cols) ->
  cover_count ws r c = 0%nat.
Proof.
  intros [Hin _] Hout. unfold cover_count.
  rewrite filter_none; [reflexivity|].
  intros w Hw. destruct (Window.covers w r c) eqn:Hcov; [|reflexivity].
  exfalso. apply Hout.
  destruct (Hin w Hw) as (Hr & Hc & _ & _ & Hrb & Hcb).
  now apply (covers_inside w rows cols r c).
Qed.

Lemma covers_false_iff (w : Window.t) (r c : Z) :
  Window.covers w r c = false <->
  ~ (Window.row_off w <= r < Window.row_off w + Window.height w /\
     Window.col_off w <= c < Window.col_off w + Window.width w).
Proof.
  rewrite <- covers_iff. destruct (Window.covers w r c); split;
    congruence.
Qed.

(** A single block spanning the grid tiles it. *)
Lemma single_window_tiling (rows cols : Z) :
  0 < rows -> 0 < cols ->
  exact_tiling rows cols [Window.mk 0 0 cols rows].
Proof.
  intros Hr Hc. split.
  - intros w [<-|[]]. simpl. lia.
  - intros r c Hrr Hcc. rewrite cover_count_cons.
    assert (Hcov : Window.covers (Window.mk 0 0 cols rows) r c = true)
      by (apply covers_iff; simpl; lia).
    now rewrite Hcov.
Qed.

(** Four equal blocks in two rows and two columns tile the grid. *)
Lemma quad_tiling (h w : Z) :
  0 < h -> 0 < w ->
  exact_tiling (2 * h) (2 * w)
    [Window.mk 0 0 w h; Window.mk w 0 w h;
     Window.mk 0 h w h; Window.mk w h w h].
Proof.
  intros Hh Hw. split.
  - intros v Hv. cbn [In] in Hv.
    destruct Hv as [<-|[<-|[<-|[<-|[]]]]];
      cbn [Window.row_off Window.col_off Window.height Window.width]; lia.
  - intros r c Hr Hc. rewrite !cover_count_cons.
    change (cover_count [] r c) with 0%nat.
    destruct (Window.covers (Window.mk 0 0 w h) r c) eqn:E1;
      destruct (Window.covers (Window.mk w 0 w h) r c) eqn:E2;
      destruct (Window.covers (Window.mk 0 h w h) r c) eqn:E3;
      destruct (Window.covers (Window.mk w h w h) r c) eqn:E4;
      try reflexivity; exfalso;
      rewrite ?covers_iff, ?covers_false_iff in *;
      cbn [Window.row_off Window.col_off Window.height Window.width] in *;
      lia.
Qed.

Lemma tiled_tiling :
  exact_tiling (src_height tiled_src) (src_width tiled_src)
    (map snd (block_windows tiled_src)).
Proof. exact (quad_tiling 16 16 ltac:(lia) ltac:(lia)). Qed.

(** C4.  The coverage property does not hold of every run: on a 20x20
    source stored as one strip of 20 rows, whose single block window tiles
    the grid exactly, the run with the factor absent is refused at the open
    of line 92 (the copied block size 20 is not a multiple of 16 while
    [tiled] is forced), so no destination window is written and the cells
    of the grid are left uncovered. *)
Theorem full_resolution_coverage_refused (nearest : Z -> Z -> Z -> Z) :
  let run := main nearest (single_file striped_src) example_args in
  overview example_args = 0 /\
  map snd (block_windows striped_src) = [Window.mk 0 0 20 20] /\
  exact_tiling (src_height striped_src) (src_width striped_src)
    (map snd (block_windows striped_src)) /\
  snd run
  = inl (RasterBlockError
      "The height and width of TIFF dataset blocks must be multiples of 16") /\
  written_windows (fst run) = [] /\
  cover_count (written_windows (fst run)) 0 0 = 0%nat.
Proof.
  cbv zeta. split; [reflexivity|]. split; [reflexivity|].
  split; [exact (single_window_tiling 20 20 ltac:(lia) ltac:(lia))|].
  assert (Hw : written (fst (main nearest (single_file striped_src)
                               example_args)) = [])
    by (apply (written_refused nearest _ _ striped_src); reflexivity).
  split.
  - rewrite (main_refused nearest (single_file striped_src) example_args
               striped_src (0, 0) (Window.mk 0 0 20 20) []); reflexivity.
  - unfold written_windows. rewrite Hw. split; reflexivity.
Qed.

(** ** Threshold monotonicity *)

Lemma count_bits_mono {A : Type} (g2 g1 : A -> Z) (l : list A) :
  (forall x, g2 x = 1 -> g1 x = 1) ->
  (length (filter (fun v => (v =? 1)%Z) (map g2 l))
   <= length (filter (fun v => (v =? 1)%Z) (map g1 l)))%nat.
Proof.
  intros Himp. induction l as [|x l IH]; simpl; [lia|].
  destruct (g2 x =? 1) eqn:E2.
  - apply Z.eqb_eq in E2. rewrite (Himp x E2). simpl. lia.
  - destruct (g1 x =? 1); simpl; lia.
Qed.

Lemma astype_le (thr1 thr2 v : Q) :
  (thr1 <= thr2)%Q ->
  astype_uint8 (Qle_bool thr2 v) <= astype_uint8 (Qle_bool thr1 v).
Proof.
  intros Hle. unfold astype_uint8.
  destruct (Qle_bool thr2 v) eqn:E2.
  - apply Qle_bool_iff in E2.
    assert (E1 : Qle_bool thr1 v = true)
      by (apply Qle_bool_iff; now apply Qle_trans with thr2).
    rewrite E1. lia.
  - destruct (Qle_bool thr1 v); lia.
Qed.

Lemma ge_mask_mono (data : Array) (thr1 thr2 : Q) :
  (thr1 <= thr2)%Q ->
  mask_le (ge_mask data thr2) (ge_mask data thr1) /\
  (count_ones (ge_mask data thr2) <= count_ones (ge_mask data thr1))%nat.
Proof.
  intros Hle. split.
  - unfold mask_le, ge_mask.
    induction (array_data data) as [|row rows IH]; simpl; constructor;
      [|exact IH].
    induction row as [|v row IHrow]; simpl; constructor; [|exact IHrow].
    now apply astype_le.
  - unfold count_ones, ge_mask. rewrite <- !concat_map.
    apply count_bits_mono. intros v H2.
    pose proof (astype_le thr1 thr2 v Hle) as Hv.
    unfold astype_uint8 in *.
    destruct (Qle_bool thr2 v); [|discriminate].
    destruct (Qle_bool thr1 v); [reflexivity|lia].
Qed.

Lemma shape_ge_mask (data : Array) (thr : Q) :
  shape (ge_mask data thr) = shape (array_data data).
Proof. unfold ge_mask. apply shape_map. Qed.

Lemma process_block_mono (nearest : Z -> Z -> Z -> Z) (src : DatasetReader)
    (thr1 thr2 : Q) (overview : Z) (blk : (Z * Z) * Window.t) :
  (thr1 <= thr2)%Q ->
  Forall2 write_le
    (written (fst (process_block nearest src thr2 overview blk)))
    (written (fst (process_block nearest src thr1 overview blk))).
Proof.
  intros Hle. destruct blk as [ji w].
  destruct (downsampling overview) eqn:Hds.
  - destruct ((Window.height w / overview <=? 0)
              || (Window.width w / overview <=? 0)) eqn:Hskip.
    + rewrite !process_block_skip by assumption. constructor.
    + rewrite !process_block_decimated by assumption.
      cbv zeta. cbn [fst written].
      constructor; [|constructor].
      unfold write_le. cbn [fst snd]. rewrite !shape_ge_mask.
      split; [reflexivity|]. now apply ge_mask_mono.
  - rewrite !process_block_full by assumption. cbn [fst written].
    constructor; [|constructor].
    unfold write_le. cbn [fst snd].
    split; [reflexivity|]. now apply ge_mask_mono.
Qed.

Lemma write_le_ones (l2 l1 : list (Window.t * list (list Z))) :
  Forall2 write_le l2 l1 ->
  (list_sum (map (fun wm => count_ones (snd wm)) l2)
   <= list_sum (map (fun wm => count_ones (snd wm)) l1))%nat.
Proof.
  induction 1 as [|wm2 wm1 l2 l1 (_ & _ & Hcount) _ IH]; simpl; lia.
Qed.

(** C6.  For the same source, output path and factor, and two requested
    fractions [f1 <= f2]: the run with [f2] writes the same windows as the
    run with [f1], each mask cell-wise at most the other's, and so never
    more 1-valued cells. *)
Theorem threshold_monotone (nearest : Z -> Z -> Z -> Z)
    (fs : string -> option DatasetReader) (tif_path out_path : string)
    (factor : Z) (f1 f2 : Q) :
  (f1 <= f2)%Q ->
  let run f := fst (main nearest fs (mkArgs tif_path out_path f factor)) in
  Forall2 (fun wm2 wm1 => fst wm2 = fst wm1 /\ mask_le (snd wm2) (snd wm1))
    (written (run f2)) (written (run f1)) /\
  (ones_written (run f2) <= ones_written (run f1))%nat.
Proof.
  intros Hle run.
  assert (Hall : Forall2 write_le (written (run f2)) (written (run f1))).
  { subst run. cbv beta.
    destruct (fs tif_path) as [src|] eqn:Hsrc.
    - destruct (block_windows src) as [|[ji w0] rest] eqn:Hblocks.
      + rewrite !(main_empty nearest fs (mkArgs _ _ _ _) src Hsrc Hblocks).
        constructor.
      + destruct (creatable (opened_profile src factor)) eqn:Hok;
          [|rewrite !(written_refused nearest fs (mkArgs _ _ _ _) src Hsrc
                        Hok); constructor].
        rewrite !(main_nonempty nearest fs (mkArgs _ _ _ _) src ji w0 rest
                    Hsrc Hblocks Hok).
        cbn [fst written tif out threshold overview].
        rewrite !written_app. cbn [written]. rewrite !app_nil_r.
        rewrite !written_flat_map.
        assert (Hthr :
          (f1 * scale_guess (robust_max (valid_values src w0))
           <= f2 * scale_guess (robust_max (valid_values src w0)))%Q).
        { apply Qmult_le_compat_r; [exact Hle|apply scale_guess_nonneg]. }
        clear Hblocks.
        induction (block_windows src) as [|blk blocks IH]; simpl;
          [constructor|].
        apply Forall2_app; [|exact IH].
        now apply process_block_mono.
    - unfold main. cbn [tif]. rewrite Hsrc. simpl. constructor. }
  split.
  - eapply Forall2_impl; [|exact Hall].
    intros wm2 wm1 (Hw & Hm & _). now split.
  - unfold ones_written. now apply write_le_ones.
Qed.

Lemma threshold_monotone_witness :
  let run f :=
    fst (main centre_nearest (single_file tiled_src)
           (mkArgs "input.tif" "mask.tif" f 2)) in
  Forall2 (fun wm2 wm1 => fst wm2 = fst wm1 /\ mask_le (snd wm2) (snd wm1))
    (written (run (9 # 10))) (written (run (4 # 10))) /\
  (ones_written (run (9 # 10)) <= ones_written (run (4 # 10)))%nat.
Proof.
  apply (threshold_monotone centre_nearest (single_file tiled_src)
           "input.tif" "mask.tif" 2 (4 # 10) (9 # 10)).
  unfold Qle. simpl. lia.
Defined.

(** ** Events of a run, inverted *)

Lemma opened_app (tr1 tr2 : list Event) :
  opened (tr1 ++ tr2) = opened tr1 ++ opened tr2.
Proof.
  induction tr1 as [|ev tr1 IH]; simpl; [reflexivity|].
  destruct ev; simpl; now rewrite IH.
Qed.

Lemma in_opened (tr : list Event) (path : string) (p : Profile) :
  In (EvOpen path p) tr <-> In (path, p) (opened tr).
Proof.
  induction tr as [|ev tr IH]; [reflexivity|].
  destruct ev; simpl; rewrite <- IH;
    try (split; [intros [Hev|Hin]; [discriminate|exact Hin]
                |intros Hin; right; exact Hin]).
  split; (intros [Hev|Hin]; [left; congruence|right; exact Hin]).
Qed.

Lemma in_written (tr : list Event) (w : Window.t) (mask : list (list Z)) :
  In (EvWrite w mask) tr <-> In (w, mask) (written tr).
Proof.
  induction tr as [|ev tr IH]; [reflexivity|].
  destruct ev; simpl; rewrite <- IH;
    try (split; [intros [Hev|Hin]; [discriminate|exact Hin]
                |intros Hin; right; exact Hin]).
  split; (intros [Hev|Hin]; [left; congruence|right; exact Hin]).
Qed.

(** The loop body never opens anything. *)
Lemma process_block_opens_nothing (nearest : Z -> Z -> Z -> Z)
    (src : DatasetReader) (thr_native : Q) (overview : Z)
    (blk : (Z * Z) * Window.t) :
  opened (fst (process_block nearest src thr_native overview blk)) = [].
Proof.
  destruct blk as [ji w].
  destruct (downsampling overview) eqn:Hds.
  - destruct ((Window.height w / overview <=? 0)
              || (Window.width w / overview <=? 0)) eqn:Hskip.
    + now rewrite process_block_skip by assumption.
    + now rewrite process_block_decimated by assumption.
  - now rewrite process_block_full by assumption.
Qed.

Lemma loop_opens_nothing (nearest : Z -> Z -> Z -> Z) (src : DatasetReader)
    (thr_native : Q) (overview : Z) (blocks : list ((Z * Z) * Window.t)) :
  opened (flat_map
            (fun blk =>
               fst (process_block nearest src thr_native overview blk))
            blocks) = [].
Proof.
  induction blocks as [|blk blocks IH]; [reflexivity|].
  cbn [flat_map]. rewrite opened_app, IH.
  now rewrite process_block_opens_nothing.
Qed.

Section RunEvents.

Variable nearest : Z -> Z -> Z -> Z.
Variable fs : string -> option DatasetReader.
Variable args : Args.
Variable src : DatasetReader.
Hypothesis Hsrc : fs (tif args) = Some src.

(** A write of a run comes from the loop body of one of the blocks, run
    with the threshold inferred from the first block. *)
Lemma run_write_inv (w : Window.t) (mask : list (list Z)) :
  In (EvWrite w mask) (fst (main nearest fs args)) ->
  exists ji w0 rest blk,
    block_windows src = (ji, w0) :: rest /\
    In blk (block_windows src) /\
    In (EvWrite w mask)
       (fst (process_block nearest src
               (threshold args
                * scale_guess (robust_max (valid_values src w0)))%Q
               (overview args) blk)).
Proof.
  destruct (block_windows src) as [|[ji w0] rest] eqn:Hblocks.
  - rewrite (main_empty nearest fs args src Hsrc Hblocks). intros [].
  - destruct (creatable (opened_profile src (overview args))) eqn:Hok.
    + rewrite (main_nonempty nearest fs args src ji w0 rest Hsrc Hblocks
                 Hok).
      cbn [fst]. intros Hin.
      destruct Hin as [Hev|[Hev|[Hev|Hin]]]; try discriminate.
      apply in_app_or in Hin. destruct Hin as [Hin|[Hev|[]]];
        [|discriminate].
      apply in_flat_map in Hin. destruct Hin as [blk [Hblk Hin]].
      exists ji, w0, rest, blk. rewrite <- Hblocks.
      repeat split; assumption.
    + rewrite (main_refused nearest fs args src ji w0 rest Hsrc Hblocks
                 Hok).
      cbn [fst]. intros [Hev|[Hev|[]]]; discriminate.
Qed.

(** What a run opens: nothing when it fails, otherwise the requested path
    with the profile of lines 73-87, once. *)
Lemma run_opened :
  opened (fst (main nearest fs args))
  = match block_windows src with
    | [] => []
    | _ :: _ =>
        if creatable (opened_profile src (overview args))
        then [(out args, opened_profile src (overview args))]
        else []
    end.
Proof.
  destruct (block_windows src) as [|[ji w0] rest] eqn:Hblocks.
  - now rewrite (main_empty nearest fs args src Hsrc Hblocks).
  - destruct (creatable (opened_profile src (overview args))) eqn:Hok.
    + rewrite (main_nonempty nearest fs args src ji w0 rest Hsrc Hblocks
                 Hok).
      cbn [fst opened]. now rewrite opened_app, loop_opens_nothing.
    + now rewrite (main_refused nearest fs args src ji w0 rest Hsrc Hblocks
                     Hok).
Qed.

Lemma run_open_inv (path : string) (p : Profile) :
  In (EvOpen path p) (fst (main nearest fs args)) ->
  block_windows src <> [] /\
  creatable (opened_profile src (overview args)) = true /\
  path = out args /\ p = opened_profile src (overview args).
Proof.
  intros Hin. apply in_opened in Hin. rewrite run_opened in Hin.
  destruct (block_windows src); [destruct Hin|].
  split; [discriminate|].
  destruct (creatable (opened_profile src (overview args)));
    [|destruct Hin].
  split; [reflexivity|].
  destruct Hin as [Hev|[]]. injection Hev as <- <-. now split.
Qed.

End RunEvents.

(** The writes of one loop body under downsampling: nothing for a skipped
    block, otherwise one mask of the requested shape at the destination
    window. *)
Lemma process_block_written_decimated (nearest : Z -> Z -> Z -> Z)
    (src : DatasetReader) (thr_native : Q) (overview : Z) (ji : Z * Z)
    (w : Window.t) :
  1 < overview ->
  written (fst (process_block nearest src thr_native overview (ji, w)))
  = if skipped overview w then []
    else [(dest_window overview w,
           ge_mask (read_value nearest src w false
                      (Some (Window.height w / overview,
                             Window.width w / overview)))
                   thr_native)].
Proof.
  intros Hov.
  pose proof (downsampling_above_one overview Hov) as Hds.
  unfold skipped.
  destruct ((Window.height w / overview <=? 0)
            || (Window.width w / overview <=? 0)) eqn:Hskip.
  - now rewrite process_block_skip by assumption.
  - rewrite process_block_decimated by assumption.
    cbv zeta. cbn [fst written]. rewrite shape_ge_mask.
    apply orb_false_iff in Hskip. destruct Hskip as [Hr Hc].
    unfold read_value, array_data, read_cells.
    rewrite shape_grid by lia. reflexivity.
Qed.

(** ** No-data pixels *)

Lemma cell_ge_mask_full (nearest : Z -> Z -> Z -> Z) (src : DatasetReader)
    (w : Window.t) (thr : Q) (i j : Z) :
  0 <= i < Window.height w ->
  0 <= j < Window.width w ->
  cell (ge_mask (read_value nearest src w false None) thr) i j
  = astype_uint8
      (Qle_bool thr
         (stored (src_pixels src (Window.row_off w + i)
                                 (Window.col_off w + j)))).
Proof.
  intros Hi Hj.
  unfold cell, ge_mask, read_value, array_data, read_cells.
  rewrite map_map. rewrite (nth_zrange_map _ _ i [] Hi).
  rewrite map_map. now rewrite (nth_zrange_map _ _ j 0 Hj).
Qed.




(** * Further properties of the script *)

(** ** Refusal of the output *)

(** Whatever the factor, the output profile is tiled and carries the
    source's block sizes, so it is accepted exactly when neither of them
    fails the multiple-of-16 test. *)
Lemma creatable_opened (src : DatasetReader) (overview : Z) :
  creatable (opened_profile src overview)
  = negb (bad_block_size (p_blockxsize (profile src))
          || bad_block_size (p_blockysize (profile src))).
Proof.
  unfold opened_profile, creatable.
  destruct (downsampling overview); reflexivity.
Qed.

(** X1.  A source whose block height or block width is not a multiple of
    16 cannot be processed: whatever the fraction and the downsample
    factor, the run reads and reports the sample and is then refused at the
    open of line 92, because line 79 forces [tiled] on a profile that still
    carries the source's block sizes; nothing is opened, no block is read
    and nothing is written. *)
Theorem unaligned_blocks_refused (nearest : Z -> Z -> Z -> Z)
    (fs : string -> option DatasetReader) (args : Args)
    (src : DatasetReader) (bh bw : Z) (shapes : list (Z * Z))
    (ji : Z * Z) (w0 : Window.t) (rest : list ((Z * Z) * Window.t)) :
  fs (tif args) = Some src ->
  block_windows src = (ji, w0) :: rest ->
  block_shapes src = (bh, bw) :: shapes ->
  bh mod 16 <> 0 \/ bw mod 16 <> 0 ->
  (exists data_max scale thr_native,
     main nearest fs args
     = ([EvRead w0 true None; EvInfo data_max scale thr_native],
        inl (RasterBlockError
          "The height and width of TIFF dataset blocks must be multiples of 16")))
  /\ opened (fst (main nearest fs args)) = []
  /\ block_reads (fst (main nearest fs args)) = []
  /\ written (fst (main nearest fs args)) = [].
Proof.
  intros Hsrc Hblocks Hshapes Hbad.
  assert (Hrefused : creatable (opened_profile src (overview args)) = false).
  { rewrite creatable_opened. unfold profile.
    cbn [p_blockxsize p_blockysize]. rewrite Hshapes.
    apply negb_false_iff, orb_true_iff. unfold bad_block_size.
    destruct Hbad as [Hb|Hb]; [right|left];
      apply negb_true_iff, Z.eqb_neq; exact Hb. }
  rewrite (main_refused nearest fs args src ji w0 rest Hsrc Hblocks
             Hrefused).
  cbn [fst]. split; [|repeat split; reflexivity].
  now eexists _, _, _.
Qed.

Lemma unaligned_blocks_refused_witness :
  (exists data_max scale thr_native,
     main centre_nearest (single_file striped_src)
       (mkArgs "input.tif" "mask.tif" (4 # 10) 2)
     = ([EvRead (Window.mk 0 0 20 20) true None;
         EvInfo data_max scale thr_native],
        inl (RasterBlockError
          "The height and width of TIFF dataset blocks must be multiples of 16")))
  /\ opened (fst (main centre_nearest (single_file striped_src)
                    (mkArgs "input.tif" "mask.tif" (4 # 10) 2))) = []
  /\ block_reads (fst (main centre_nearest (single_file striped_src)
                         (mkArgs "input.tif" "mask.tif" (4 # 10) 2))) = []
  /\ written (fst (main centre_nearest (single_file striped_src)
                     (mkArgs "input.tif" "mask.tif" (4 # 10) 2))) = [].
Proof.
  apply (unaligned_blocks_refused centre_nearest (single_file striped_src)
           (mkArgs "input.tif" "mask.tif" (4 # 10) 2) striped_src 20 20 []
           (0, 0) (Window.mk 0 0 20 20) []).
  - reflexivity.
  - reflexivity.
  - reflexivity.
  - left. vm_compute. discriminate.
Defined.

(** ** The order of effects *)









(** ** The scale estimate *)

(** X3.  Whenever the estimator returns, the scale factor is 1, 100 or
    10000, chosen from the sampled maximum by the bucket rule; the native
    threshold is not below a non-negative fraction and not above a
    non-positive one; and the only effect was one masked full-resolution
    read of the first block window. *)
Theorem estimate_invariants (nearest : Z -> Z -> Z -> Z)
    (src : DatasetReader) (fraction thr_native scale data_max : Q) :
  snd (infer_threshold_value nearest src fraction)
  = inr (thr_native, scale, data_max) ->
  (scale = 1 \/ scale = 100 \/ scale = 10000)%Q /\
  scale = scale_guess data_max /\
  (0 <= fraction -> fraction <= thr_native)%Q /\
  (fraction <= 0 -> thr_native <= fraction)%Q /\
  exists ji w rest,
    block_windows src = (ji, w) :: rest /\
    fst (infer_threshold_value nearest src fraction) = [EvRead w true None].
Proof.
  destruct (block_windows src) as [|[ji w] rest] eqn:Hblocks.
  - unfold infer_threshold_value. rewrite Hblocks. discriminate.
  - rewrite (infer_nonempty nearest src fraction ji w rest Hblocks).
    cbn [fst snd]. intros Hres. injection Hres as <- <- <-.
    split; [apply scale_guess_cases|].
    split; [reflexivity|].
    split; [|split; [|now exists ji, w, rest]].
    + intros Hpos.
      rewrite <- (Qmult_1_r_eq fraction) at 1.
      destruct (scale_guess_cases (robust_max (valid_values src w)))
        as [E|[E|E]]; rewrite E; destruct fraction as [n d];
        unfold Qle, Qmult in *; simpl in *; nia.
    + intros Hneg.
      rewrite <- (Qmult_1_r_eq fraction) at 2.
      destruct (scale_guess_cases (robust_max (valid_values src w)))
        as [E|[E|E]]; rewrite E; destruct fraction as [n d];
        unfold Qle, Qmult in *; simpl in *; nia.
Qed.

Lemma estimate_invariants_witness :
  let data_max := robust_max (valid_values tiled_src (Window.mk 0 0 16 16)) in
  let scale := scale_guess data_max in
  let thr_native := ((4 # 10) * scale)%Q in
  (scale = 1 \/ scale = 100 \/ scale = 10000)%Q /\
  scale = scale_guess data_max /\
  (0 <= 4 # 10 -> 4 # 10 <= thr_native)%Q /\
  (4 # 10 <= 0 -> thr_native <= 4 # 10)%Q /\
  exists ji w rest,
    block_windows tiled_src = (ji, w) :: rest /\
    fst (infer_threshold_value centre_nearest tiled_src (4 # 10))
    = [EvRead w true None].
Proof.
  apply (estimate_invariants centre_nearest tiled_src (4 # 10)).
  vm_compute. reflexivity.
Defined.

Lemma valid_sample_ext (px1 px2 : Z -> Z -> Pixel) (rows cols : list Z) :
  (forall i j, In i rows -> In j cols ->
     is_valid (px1 i j) = is_valid (px2 i j) /\
     (is_valid (px1 i j) = true -> stored (px1 i j) = stored (px2 i j))) ->
  map stored
    (filter is_valid (concat (map (fun i => map (px1 i) cols) rows)))
  = map stored
      (filter is_valid (concat (map (fun i => map (px2 i) cols) rows))).
Proof.
  intros Hagree. induction rows as [|i rows IH]; [reflexivity|].
  cbn [map concat]. rewrite !filter_app, !map_app. f_equal.
  - assert (Hrow : forall j, In j cols ->
        is_valid (px1 i j) = is_valid (px2 i j) /\
        (is_valid (px1 i j) = true -> stored (px1 i j) = stored (px2 i j))).
    { intros j Hj. apply Hagree; [now left|exact Hj]. }
    clear Hagree IH. induction cols as [|j cols IHc]; [reflexivity|].
    cbn [map filter].
    destruct (Hrow j (or_introl eq_refl)) as [Hv Hs].
    rewrite <- Hv. destruct (is_valid (px1 i j)) eqn:Ev.
    + cbn [map]. rewrite (Hs eq_refl). f_equal.
      apply IHc. intros j' Hj'. apply Hrow. now right.
    + apply IHc. intros j' Hj'. apply Hrow. now right.
  - apply IH. intros i' j Hi' Hj. apply Hagree; [now right|exact Hj].
Qed.

(** X4.  The estimate looks at nothing but the valid pixels of the first
    block window: two sources of the same pixel data type that enumerate
    the same first window and agree inside it on the validity mask and on
    the stored values of the valid pixels get the same estimate, whatever
    the invalid pixels store and whatever lies outside that window. *)
Theorem estimate_reads_valid_sample_only (nearest : Z -> Z -> Z -> Z)
    (src1 src2 : DatasetReader) (fraction : Q) (ji1 ji2 : Z * Z)
    (w : Window.t) (rest1 rest2 : list ((Z * Z) * Window.t)) :
  src_dtype src1 = src_dtype src2 ->
  block_windows src1 = (ji1, w) :: rest1 ->
  block_windows src2 = (ji2, w) :: rest2 ->
  (forall i j,
      0 <= i < Window.height w -> 0 <= j < Window.width w ->
      let p1 := src_pixels src1 (Window.row_off w + i)
                                (Window.col_off w + j) in
      let p2 := src_pixels src2 (Window.row_off w + i)
                                (Window.col_off w + j) in
      is_valid p1 = is_valid p2 /\
      (is_valid p1 = true -> stored p1 = stored p2)) ->
  infer_threshold_value nearest src1 fraction
  = infer_threshold_value nearest src2 fraction.
Proof.
  intros _ Hb1 Hb2 Hagree.
  rewrite (infer_nonempty nearest src1 fraction ji1 w rest1 Hb1).
  rewrite (infer_nonempty nearest src2 fraction ji2 w rest2 Hb2).
  assert (Hsample : valid_values src1 w = valid_values src2 w).
  { unfold valid_values.
    apply (valid_sample_ext
             (fun i j => src_pixels src1 (Window.row_off w + i)
                                         (Window.col_off w + j))
             (fun i j => src_pixels src2 (Window.row_off w + i)
                                         (Window.col_off w + j))).
    intros i j Hi Hj. apply Hagree; now apply in_zrange. }
  now rewrite Hsample.
Qed.

Lemma estimate_reads_valid_sample_only_witness :
  infer_threshold_value centre_nearest nodata_src (4 # 10)
  = infer_threshold_value centre_nearest nodata_src_zero (4 # 10).
Proof.
  apply (estimate_reads_valid_sample_only centre_nearest nodata_src
           nodata_src_zero (4 # 10) (0, 0) (0, 0) (Window.mk 0 0 2 1) [] []).
  - reflexivity.
  - reflexivity.
  - reflexivity.
  - intros i j Hi Hj. simpl in Hi, Hj.
    assert (Ei : i = 0) by lia. assert (Ej : j = 0 \/ j = 1) by lia.
    subst i. destruct Ej as [-> | ->].
    + split; reflexivity.
    + split; [reflexivity|]. intros Hv. discriminate Hv.
Defined.
(** ** The output under downsampling *)

Lemma downsampling_true_inv (overview : Z) :
  downsampling overview = true -> 1 < overview.
Proof.
  unfold downsampling. intros H. apply andb_true_iff in H. lia.
Qed.

(** X5.  With a factor above 1 the output is opened as a single-band,
    tiled, LZW-compressed uint8 raster with no-data value 0; its height and
    width are the source's divided by the factor, rounded down but never
    below 1; and its transform keeps the source's origin while every
    coefficient of the linear part is multiplied by the factor. *)
Theorem decimated_output_profile (nearest : Z -> Z -> Z -> Z)
    (fs : string -> option DatasetReader) (args : Args)
    (src : DatasetReader) (path : string) (p : Profile) :
  fs (tif args) = Some src ->
  1 < overview args ->
  In (EvOpen path p) (fst (main nearest fs args)) ->
  let k := overview args in
  let t := src_transform src in
  (p_dtype p = "uint8"%string /\ p_count p = 1 /\ p_nodata p = Some 0%Q /\
   p_tiled p = true /\ p_compress p = Some "LZW"%string) /\
  (p_height p = Z.max 1 (src_height src / k) /\
   p_width p = Z.max 1 (src_width src / k) /\
   1 <= p_height p /\ 1 <= p_width p) /\
  (Affine.a (p_transform p) == Affine.a t * inject_Z k /\
   Affine.b (p_transform p) == Affine.b t * inject_Z k /\
   Affine.c (p_transform p) == Affine.c t /\
   Affine.d (p_transform p) == Affine.d t * inject_Z k /\
   Affine.e (p_transform p) == Affine.e t * inject_Z k /\
   Affine.f (p_transform p) == Affine.f t)%Q.
Proof.
  intros Hsrc Hov Hin k t.
  destruct (run_open_inv nearest fs args src Hsrc path p Hin)
    as (_ & _ & _ & ->).
  unfold opened_profile.
  rewrite (downsampling_above_one _ Hov).
  cbn [resize force_uint8 p_dtype p_count p_nodata p_tiled p_compress
       p_height p_width p_transform].
  split; [repeat split|]. split; [repeat split; lia|].
  unfold Affine.mul, Affine.scale.
  cbn [Affine.a Affine.b Affine.c Affine.d Affine.e Affine.f].
  fold k t. repeat split; ring.
Qed.

Lemma decimated_output_profile_witness :
  let p := opened_profile tiled_src 16 in
  (p_dtype p = "uint8"%string /\ p_count p = 1 /\ p_nodata p = Some 0%Q /\
   p_tiled p = true /\ p_compress p = Some "LZW"%string) /\
  (p_height p = Z.max 1 (32 / 16) /\ p_width p = Z.max 1 (32 / 16) /\
   1 <= p_height p /\ 1 <= p_width p) /\
  (Affine.a (p_transform p) == 1 * inject_Z 16 /\
   Affine.b (p_transform p) == 0 * inject_Z 16 /\
   Affine.c (p_transform p) == 0 /\
   Affine.d (p_transform p) == 0 * inject_Z 16 /\
   Affine.e (p_transform p) == 1 * inject_Z 16 /\
   Affine.f (p_transform p) == 0)%Q.
Proof.
  apply (decimated_output_profile centre_nearest (single_file tiled_src)
           (mkArgs "input.tif" "mask.tif" (4 # 10) 16) tiled_src
           "mask.tif" (opened_profile tiled_src 16)).
  - reflexivity.
  - simpl. lia.
  - vm_compute. do 2 right. left. reflexivity.
Defined.

(** ** Destination windows *)

Lemma div_sum_le (a b k : Z) : 0 < k -> a / k + b / k <= (a + b) / k.
Proof.
  intros Hk. apply Z.div_le_lower_bound; [exact Hk|].
  rewrite Z.mul_add_distr_l.
  pose proof (Z.mul_div_le a k Hk). pose proof (Z.mul_div_le b k Hk). lia.
Qed.

Lemma div_pos_ge (a k : Z) : 0 < k -> 0 < a / k -> k <= a.
Proof.
  intros Hk Hq. pose proof (Z.mul_div_le a k Hk). nia.
Qed.

Lemma skipped_false_inv (k : Z) (w : Window.t) :
  skipped k w = false ->
  0 < Window.height w / k /\ 0 < Window.width w / k.
Proof.
  unfold skipped. intros H. apply orb_false_iff in H. lia.
Qed.

(** A block kept by the loop lands inside the decimated grid. *)
Lemma dest_inside (k rows cols : Z) (w : Window.t) :
  1 < k ->
  inside rows cols w ->
  skipped k w = false ->
  inside (Z.max 1 (rows / k)) (Z.max 1 (cols / k)) (dest_window k w).
Proof.
  intros Hk (Hr & Hc & Hh & Hw & Hrb & Hcb) Hkeep.
  destruct (skipped_false_inv k w Hkeep) as [Hrows Hcols].
  unfold inside, dest_window.
  cbn [Window.row_off Window.col_off Window.height Window.width].
  assert (Hk0 : 0 < k) by lia.
  pose proof (Z.div_pos (Window.row_off w) k Hr Hk0).
  pose proof (Z.div_pos (Window.col_off w) k Hc Hk0).
  pose proof (div_sum_le (Window.row_off w) (Window.height w) k Hk0).
  pose proof (div_sum_le (Window.col_off w) (Window.width w) k Hk0).
  pose proof (Z.div_le_mono _ _ k Hk0 Hrb).
  pose proof (Z.div_le_mono _ _ k Hk0 Hcb).
  lia.
Qed.

(** X6.  A write never falls outside the output.  When every block window
    of the source is a non-empty window inside the source grid, every
    window a run writes is a non-empty window inside the grid the output
    was opened with, and the mask written has exactly that window's shape;
    this holds at full resolution and under any downsample factor. *)
Theorem writes_fit_output (nearest : Z -> Z -> Z -> Z)
    (fs : string -> option DatasetReader) (args : Args)
    (src : DatasetReader) (path : string) (p : Profile) (w : Window.t)
    (mask : list (list Z)) :
  fs (tif args) = Some src ->
  (forall blk, In blk (block_windows src) ->
     inside (src_height src) (src_width src) (snd blk)) ->
  In (EvOpen path p) (fst (main nearest fs args)) ->
  In (EvWrite w mask) (fst (main nearest fs args)) ->
  inside (p_height p) (p_width p) w /\
  shape mask = (Window.height w, Window.width w).
Proof.
  intros Hsrc Hblocks Hopen Hwrite.
  destruct (run_open_inv nearest fs args src Hsrc path p Hopen)
    as (_ & _ & _ & ->).
  destruct (run_write_inv nearest fs args src Hsrc w mask Hwrite)
    as (ji & w0 & rest & [ji' w'] & _ & Hblk & Hin).
  specialize (Hblocks _ Hblk). cbn [snd] in Hblocks.
  unfold opened_profile.
  destruct (downsampling (overview args)) eqn:Hds.
  - pose proof (downsampling_true_inv _ Hds) as Hov.
    apply in_written in Hin.
    rewrite process_block_written_decimated in Hin by exact Hov.
    destruct (skipped (overview args) w') eqn:Hkeep; [destruct Hin|].
    destruct Hin as [Hev|[]]. injection Hev as <- <-.
    cbn [resize p_height p_width]. split.
    + now apply dest_inside.
    + destruct (skipped_false_inv _ _ Hkeep) as [Hrows Hcols].
      rewrite shape_ge_mask.
      unfold read_value, array_data, read_cells, dest_window.
      cbn [Window.height Window.width]. apply shape_grid; lia.
  - rewrite process_block_full in Hin by exact Hds. cbn [fst] in Hin.
    destruct Hin as [Hev|[Hev|[]]]; [discriminate|].
    injection Hev as <- <-.
    cbn [force_uint8 profile p_height p_width]. split; [exact Hblocks|].
    destruct Hblocks as (_ & _ & Hh & Hw & _).
    rewrite shape_ge_mask. unfold read_value, array_data, read_cells.
    apply shape_grid; lia.
Qed.

Lemma tiled_blocks_inside :
  forall blk, In blk (block_windows tiled_src) ->
    inside (src_height tiled_src) (src_width tiled_src) (snd blk).
Proof.
  intros blk Hblk. simpl in Hblk.
  destruct Hblk as [<-|[<-|[<-|[<-|[]]]]]; unfold inside; simpl; lia.
Qed.

Lemma writes_fit_output_witness :
  inside 2 2 (Window.mk 1 0 1 1) /\
  shape [[1]] = (Window.height (Window.mk 1 0 1 1),
                 Window.width (Window.mk 1 0 1 1)).
Proof.
  apply (writes_fit_output centre_nearest (single_file tiled_src)
           (mkArgs "input.tif" "mask.tif" (4 # 10) 16) tiled_src
           "mask.tif" (opened_profile tiled_src 16) (Window.mk 1 0 1 1)
           [[1]]).
  - reflexivity.
  - exact tiled_blocks_inside.
  - vm_compute. do 2 right. left. reflexivity.
  - vm_compute. do 6 right. left. reflexivity.
Defined.

(** ** Decimated writes: no overlap, exact coverage *)

(** The windows written by a decimated run whose output was created: the
    destination windows of the blocks the loop keeps, in order. *)
Lemma written_windows_decimated (nearest : Z -> Z -> Z -> Z)
    (fs : string -> option DatasetReader) (args : Args)
    (src : DatasetReader) :
  fs (tif args) = Some src ->
  1 < overview args ->
  creatable (opened_profile src (overview args)) = true ->
  written_windows (fst (main nearest fs args))
  = map (dest_window (overview args))
      (filter (fun w => negb (skipped (overview args) w))
         (map snd (block_windows src))).
Proof.
  intros Hsrc Hov Hok. unfold written_windows.
  destruct (block_windows src) as [|[ji w0] rest] eqn:Hblocks.
  - now rewrite (main_empty nearest fs args src Hsrc Hblocks).
  - rewrite (main_nonempty nearest fs args src ji w0 rest Hsrc Hblocks Hok).
    cbn [fst written]. rewrite written_app, written_flat_map.
    cbn [written]. rewrite app_nil_r. rewrite <- Hblocks.
    generalize (threshold args
                * scale_guess (robust_max (valid_values src w0)))%Q
      as thr_native.
    intros thr_native. clear Hblocks.
    induction (block_windows src) as [|[ji' w] blocks IH]; [reflexivity|].
    cbn [flat_map]. rewrite map_app, IH.
    rewrite process_block_written_decimated by exact Hov.
    cbn [map filter snd].
    destruct (skipped (overview args) w); reflexivity.
Qed.

Lemma dest_disjoint (k : Z) (w1 w2 : Window.t) :
  1 < k ->
  skipped k w1 = false ->
  skipped k w2 = false ->
  (forall r c,
      ~ (Window.covers w1 r c = true /\ Window.covers w2 r c = true)) ->
  forall r c,
    ~ (Window.covers (dest_window k w1) r c = true /\
       Window.covers (dest_window k w2) r c = true).
Proof.
  intros Hk Hk1 Hk2 Hdisj r c [H1 H2].
  assert (Hk0 : 0 < k) by lia.
  destruct (skipped_false_inv k w1 Hk1) as [Hr1 Hc1].
  destruct (skipped_false_inv k w2 Hk2) as [Hr2 Hc2].
  pose proof (div_pos_ge _ k Hk0 Hr1). pose proof (div_pos_ge _ k Hk0 Hc1).
  pose proof (div_pos_ge _ k Hk0 Hr2). pose proof (div_pos_ge _ k Hk0 Hc2).
  apply covers_iff in H1. apply covers_iff in H2.
  unfold dest_window in H1, H2.
  cbn [Window.row_off Window.col_off Window.height Window.width] in H1, H2.
  assert (Hsep :
    Window.row_off w1 + Window.height w1 <= Window.row_off w2 \/
    Window.row_off w2 + Window.height w2 <= Window.row_off w1 \/
    Window.col_off w1 + Window.width w1 <= Window.col_off w2 \/
    Window.col_off w2 + Window.width w2 <= Window.col_off w1).
  { destruct (Z_le_gt_dec (Window.row_off w1 + Window.height w1)
                          (Window.row_off w2)); [now left|].
    destruct (Z_le_gt_dec (Window.row_off w2 + Window.height w2)
                          (Window.row_off w1)); [now right; left|].
    destruct (Z_le_gt_dec (Window.col_off w1 + Window.width w1)
                          (Window.col_off w2)); [now right; right; left|].
    destruct (Z_le_gt_dec (Window.col_off w2 + Window.width w2)
                          (Window.col_off w1)); [now right; right; right|].
    exfalso.
    apply (Hdisj (Z.max (Window.row_off w1) (Window.row_off w2))
                 (Z.max (Window.col_off w1) (Window.col_off w2))).
    rewrite !covers_iff. lia. }
  pose proof (div_sum_le (Window.row_off w1) (Window.height w1) k Hk0).
  pose proof (div_sum_le (Window.row_off w2) (Window.height w2) k Hk0).
  pose proof (div_sum_le (Window.col_off w1) (Window.width w1) k Hk0).
  pose proof (div_sum_le (Window.col_off w2) (Window.width w2) k Hk0).
  destruct Hsep as [Hs|[Hs|[Hs|Hs]]];
    pose proof (Z.div_le_mono _ _ k Hk0 Hs); lia.
Qed.

Lemma dest_cover_at_most_once (k : Z) (ws : list Window.t) :
  1 < k ->
  (forall r c, (cover_count ws r c <= 1)%nat) ->
  forall r c,
    (cover_count
       (map (dest_window k) (filter (fun w => negb (skipped k w)) ws)) r c
     <= 1)%nat.
Proof.
  intros Hk. induction ws as [|w ws IH]; intros Hmost r c.
  - unfold cover_count. simpl. lia.
  - assert (Htail : forall r' c', (cover_count ws r' c' <= 1)%nat).
    { intros r' c'. specialize (Hmost r' c').
      rewrite cover_count_cons in Hmost. lia. }
    cbn [filter]. destruct (skipped k w) eqn:Hkeep; cbn [negb].
    + now apply IH.
    + cbn [map]. rewrite cover_count_cons.
      destruct (Window.covers (dest_window k w) r c) eqn:Hcov.
      * assert (Hnone :
          cover_count
            (map (dest_window k) (filter (fun v => negb (skipped k v)) ws))
            r c = 0%nat).
        { unfold cover_count. rewrite filter_none; [reflexivity|].
          intros d Hd. apply in_map_iff in Hd.
          destruct Hd as [w' [<- Hw']].
          apply filter_In in Hw'. destruct Hw' as [Hw' Hkeep'].
          apply negb_true_iff in Hkeep'.
          destruct (Window.covers (dest_window k w') r c) eqn:Hcov';
            [|reflexivity].
          exfalso.
          apply (dest_disjoint k w w' Hk Hkeep Hkeep') with (r := r) (c := c);
            [|now split].
          intros r' c' [Hc1 Hc2].
          pose proof (cover_count_member ws w' r' c' Hw' Hc2) as Hge.
          specialize (Hmost r' c'). rewrite cover_count_cons, Hc1 in Hmost.
          lia. }
        rewrite Hnone. lia.
      * specialize (IH Htail r c). lia.
Qed.

(** X7.  Downsampling never makes two writes overlap: if no cell of the
    source lies in two block windows, then under any factor above 1 no
    cell of the output lies in two written windows, whatever the block
    sizes and offsets. *)
Theorem decimated_writes_never_overlap (nearest : Z -> Z -> Z -> Z)
    (fs : string -> option DatasetReader) (args : Args)
    (src : DatasetReader) :
  fs (tif args) = Some src ->
  1 < overview args ->
  (forall r c, (cover_count (map snd (block_windows src)) r c <= 1)%nat) ->
  forall r c,
    (cover_count (written_windows (fst (main nearest fs args))) r c <= 1)%nat.
Proof.
  intros Hsrc Hov Hmost r c.
  destruct (creatable (opened_profile src (overview args))) eqn:Hok.
  - rewrite (written_windows_decimated nearest fs args src Hsrc Hov Hok).
    now apply dest_cover_at_most_once.
  - unfold written_windows.
    rewrite (written_refused nearest fs args src Hsrc Hok).
    unfold cover_count. simpl. lia.
Qed.

Lemma cover_count_tiling_at_most_once (rows cols : Z) (ws : list Window.t) :
  exact_tiling rows cols ws ->
  forall r c, (cover_count ws r c <= 1)%nat.
Proof.
  intros Htile r c.
  destruct (in_grid rows cols r c) eqn:Hin.
  - unfold in_grid in Hin. rewrite !andb_true_iff in Hin.
    destruct Htile as [_ Hone]. rewrite Hone; lia.
  - rewrite (exact_tiling_outside rows cols ws r c Htile); [lia|].
    intros [Hr Hc]. unfold in_grid in Hin.
    rewrite !andb_false_iff in Hin. lia.
Qed.

Lemma decimated_writes_never_overlap_witness :
  (cover_count
     (written_windows
        (fst (main centre_nearest (single_file tiled_src)
                (mkArgs "input.tif" "mask.tif" (4 # 10) 16)))) 1 1
   <= 1)%nat.
Proof.
  apply (decimated_writes_never_overlap centre_nearest
           (single_file tiled_src)
           (mkArgs "input.tif" "mask.tif" (4 # 10) 16) tiled_src).
  - reflexivity.
  - simpl. lia.
  - exact (cover_count_tiling_at_most_once _ _ _ tiled_tiling).
Defined.

Lemma cover_count_pos_inv (ws : list Window.t) (r c : Z) :
  (1 <= cover_count ws r c)%nat ->
  exists w, In w ws /\ Window.covers w r c = true.
Proof.
  induction ws as [|w ws IH]; intros Hpos.
  - unfold cover_count in Hpos. simpl in Hpos. lia.
  - rewrite cover_count_cons in Hpos.
    destruct (Window.covers w r c) eqn:Hcov.
    + exists w. split; [now left|exact Hcov].
    + destruct (IH ltac:(lia)) as [v [Hv Hcv]].
      exists v. split; [now right|exact Hcv].
Qed.

(** An aligned block is kept by the loop, and its destination window is
    the block shrunk by the factor. *)
Lemma aligned_dest (k : Z) (w : Window.t) :
  1 < k ->
  0 < Window.height w -> 0 < Window.width w ->
  aligned k w ->
  skipped k w = false /\
  Window.row_off (dest_window k w) * k = Window.row_off w /\
  Window.col_off (dest_window k w) * k = Window.col_off w /\
  Window.height (dest_window k w) * k = Window.height w /\
  Window.width (dest_window k w) * k = Window.width w.
Proof.
  intros Hk Hh Hw ([a Ea] & [b Eb] & [h Eh] & [v Ev]).
  unfold skipped, dest_window.
  cbn [Window.row_off Window.col_off Window.height Window.width].
  rewrite Ea, Eb, Eh, Ev in *.
  rewrite !Z.div_mul by lia.
  split; [|lia]. apply orb_false_iff. split; apply Z.leb_gt; nia.
Qed.

(** X8.  When the source's block windows tile its grid exactly and all
    their offsets and sizes are multiples of a factor above 1, the windows
    a run writes tile the opened output grid exactly: the grid is the
    source's divided by the factor, every written window lies inside it,
    and every output cell lies in exactly one of them. *)
Theorem aligned_decimation_tiles_output (nearest : Z -> Z -> Z -> Z)
    (fs : string -> option DatasetReader) (args : Args)
    (src : DatasetReader) (path : string) (p : Profile) :
  fs (tif args) = Some src ->
  1 < overview args ->
  exact_tiling (src_height src) (src_width src)
    (map snd (block_windows src)) ->
  (forall w, In w (map snd (block_windows src)) ->
     aligned (overview args) w) ->
  In (EvOpen path p) (fst (main nearest fs args)) ->
  p_height p = src_height src / overview args /\
  p_width p = src_width src / overview args /\
  exact_tiling (p_height p) (p_width p)
    (written_windows (fst (main nearest fs args))).
Proof.
  intros Hsrc Hov Htile Halign Hopen.
  set (k := overview args) in *.
  assert (Hk0 : 0 < k) by lia.
  destruct (run_open_inv nearest fs args src Hsrc path p Hopen)
    as (Hne & Hok & _ & ->).
  rewrite (written_windows_decimated nearest fs args src Hsrc Hov Hok).
  fold k. unfold opened_profile. fold k.
  rewrite (downsampling_above_one k Hov). cbn [resize p_height p_width].
  (* some block exists, so the grid is at least one factor wide and high *)
  assert (Hbig : k <= src_height src /\ k <= src_width src).
  { destruct (block_windows src) as [|[ji w] rest] eqn:Hblocks;
      [now elim Hne|].
    destruct Htile as [Hin _].
    destruct (Hin w (or_introl eq_refl)) as (Hr & Hc & Hh & Hw & Hrb & Hcb).
    destruct (aligned_dest k w Hov Hh Hw (Halign w (or_introl eq_refl)))
      as (Hkeep & _ & _ & _ & _).
    destruct (skipped_false_inv k w Hkeep) as [Hrows Hcols].
    pose proof (div_pos_ge _ k Hk0 Hrows).
    pose proof (div_pos_ge _ k Hk0 Hcols). lia. }
  assert (Hrows : 1 <= src_height src / k)
    by (apply Z.div_le_lower_bound; lia).
  assert (Hcols : 1 <= src_width src / k)
    by (apply Z.div_le_lower_bound; lia).
  rewrite !Z.max_r by lia.
  split; [reflexivity|]. split; [reflexivity|].
  split.
  - intros d Hd. apply in_map_iff in Hd. destruct Hd as [w [<- Hw]].
    apply filter_In in Hw. destruct Hw as [Hw Hkeep].
    apply negb_true_iff in Hkeep.
    destruct Htile as [Hin _].
    pose proof (dest_inside k _ _ w Hov (Hin w Hw) Hkeep) as Hfit.
    rewrite !Z.max_r in Hfit by lia. exact Hfit.
  - intros r c Hr Hc.
    pose proof (dest_cover_at_most_once k (map snd (block_windows src)) Hov
                  (cover_count_tiling_at_most_once _ _ _ Htile) r c)
      as Hmost.
    assert (Hleast :
      (1 <= cover_count
              (map (dest_window k)
                 (filter (fun w => negb (skipped k w))
                    (map snd (block_windows src)))) r c)%nat);
      [|lia].
    pose proof (Z.mul_div_le (src_height src) k Hk0) as Hrk.
    pose proof (Z.mul_div_le (src_width src) k Hk0) as Hck.
    destruct Htile as [Hin Hone].
    assert (Hcell : cover_count (map snd (block_windows src)) (r * k) (c * k)
                    = 1%nat) by (apply Hone; nia).
    destruct (cover_count_pos_inv _ _ _ ltac:(rewrite Hcell; lia))
      as [w [Hw Hcov]].
    destruct (Hin w Hw) as (_ & _ & Hh & Hwd & _ & _).
    destruct (aligned_dest k w Hov Hh Hwd (Halign w Hw))
      as (Hkeep & Ea & Eb & Eh & Ev).
    apply cover_count_member with (w := dest_window k w).
    + apply in_map. apply filter_In. split; [exact Hw|].
      now rewrite Hkeep.
    + apply covers_iff in Hcov. apply covers_iff.
      rewrite <- Ea, <- Eb, <- Eh, <- Ev in Hcov. nia.
Qed.

Lemma tiled_aligned :
  forall w, In w (map snd (block_windows tiled_src)) -> aligned 16 w.
Proof.
  intros w Hw. simpl in Hw.
  destruct Hw as [<-|[<-|[<-|[<-|[]]]]]; unfold aligned; simpl;
    repeat split;
    solve [exists 0; reflexivity | exists 1; reflexivity].
Qed.

Lemma aligned_decimation_tiles_output_witness :
  let tr := fst (main centre_nearest (single_file tiled_src)
                   (mkArgs "input.tif" "mask.tif" (4 # 10) 16)) in
  let p := opened_profile tiled_src 16 in
  p_height p = 32 / 16 /\
  p_width p = 32 / 16 /\
  exact_tiling (p_height p) (p_width p) (written_windows tr).
Proof.
  apply (aligned_decimation_tiles_output centre_nearest
           (single_file tiled_src)
           (mkArgs "input.tif" "mask.tif" (4 # 10) 16) tiled_src
           "mask.tif" (opened_profile tiled_src 16)).
  - reflexivity.
  - simpl. lia.
  - exact tiled_tiling.
  - exact tiled_aligned.
  - vm_compute. do 2 right. left. reflexivity.
Defined.

(** ** What a completed run leaves in the output *)

Lemma output_cell_full_blocks (nearest : Z -> Z -> Z -> Z)
    (src : DatasetReader) (thr : Q) (blocks : list ((Z * Z) * Window.t))
    (r c : Z) :
  output_cell
    (map (fun blk =>
            (snd blk, ge_mask (read_value nearest src (snd blk) false None)
                              thr))
         blocks) r c
  = match cover_count (map snd blocks) r c with
    | O => None
    | S _ => Some (astype_uint8 (Qle_bool thr (stored (src_pixels src r c))))
    end.
Proof.
  induction blocks as [|[ji w] blocks IH]; [reflexivity|].
  cbn [map snd output_cell]. rewrite IH, cover_count_cons.
  destruct (cover_count (map snd blocks) r c) as [|n].
  - destruct (Window.covers w r c) eqn:Hcov; [|reflexivity].
    cbn [Nat.add]. apply covers_iff in Hcov.
    rewrite (cell_ge_mask_full nearest src w thr) by lia.
    replace (Window.row_off w + (r - Window.row_off w)) with r by lia.
    replace (Window.col_off w + (c - Window.col_off w)) with c by lia.
    reflexivity.
  - destruct (Window.covers w r c); reflexivity.
Qed.

(** The writes of a run that returned without downsampling. *)
Lemma written_completed_full (nearest : Z -> Z -> Z -> Z)
    (fs : string -> option DatasetReader) (args : Args)
    (src : DatasetReader) :
  fs (tif args) = Some src ->
  overview args <= 1 ->
  snd (main nearest fs args) = inr tt ->
  exists thr_native,
    written (fst (main nearest fs args))
    = map (fun blk =>
             (snd blk,
              ge_mask (read_value nearest src (snd blk) false None)
                      thr_native))
          (block_windows src).
Proof.
  intros Hsrc Hov Hret.
  destruct (returned_inv nearest fs args Hret)
    as (src' & ji & w0 & rest & Hsrc' & Hblocks & Hok).
  rewrite Hsrc in Hsrc'. injection Hsrc' as <-.
  eexists.
  apply (written_full nearest fs args src Hsrc
           (downsampling_at_most_one _ Hov) ji w0 rest Hblocks Hok).
Qed.

(** X9.  At full resolution over an exact tiling, a run that returns
    leaves in the output the source thresholded cell for cell at one
    cut-off: there is a single value such that every cell of the grid
    holds 1 when the stored value of the source pixel at the same row and
    column is at least that value and 0 otherwise; and no cell outside the
    grid is written. *)
Theorem full_resolution_output_cells (nearest : Z -> Z -> Z -> Z)
    (fs : string -> option DatasetReader) (args : Args)
    (src : DatasetReader) :
  fs (tif args) = Some src ->
  overview args <= 1 ->
  snd (main nearest fs args) = inr tt ->
  exact_tiling (src_height src) (src_width src)
    (map snd (block_windows src)) ->
  exists cut : Q,
    forall r c,
      output_cell (written (fst (main nearest fs args))) r c
      = if in_grid (src_height src) (src_width src) r c
        then Some (astype_uint8 (Qle_bool cut (stored (src_pixels src r c))))
        else None.
Proof.
  intros Hsrc Hov Hret Htile.
  destruct (written_completed_full nearest fs args src Hsrc Hov Hret)
    as [thr_native Hwritten].
  exists thr_native. intros r c.
  rewrite Hwritten, output_cell_full_blocks.
  destruct (in_grid (src_height src) (src_width src) r c) eqn:Hin.
  - unfold in_grid in Hin. rewrite !andb_true_iff in Hin.
    destruct Htile as [_ Hone]. rewrite Hone by lia. reflexivity.
  - rewrite (exact_tiling_outside _ _ _ r c Htile); [reflexivity|].
    intros [Hr Hc]. unfold in_grid in Hin.
    rewrite !andb_false_iff in Hin. lia.
Qed.

Lemma full_resolution_output_cells_witness :
  exists cut : Q,
    forall r c,
      output_cell
        (written (fst (main centre_nearest (single_file tiled_src)
                         example_args))) r c
      = if in_grid 32 32 r c
        then Some (astype_uint8
                     (Qle_bool cut (stored (src_pixels tiled_src r c))))
        else None.
Proof.
  apply (full_resolution_output_cells centre_nearest
           (single_file tiled_src) example_args tiled_src).
  - reflexivity.
  - simpl. lia.
  - vm_compute. reflexivity.
  - exact tiled_tiling.
Defined.

(** X11.  With the downsample factor at most 1 and block windows that tile
    the source grid exactly, a run that returns has written exactly the
    source's block windows, in order: every cell of the grid lies in
    exactly one written window, no written window reaches outside the
    grid, and no window is written twice. *)
Theorem completed_run_covers_grid (nearest : Z -> Z -> Z -> Z)
    (fs : string -> option DatasetReader) (args : Args)
    (src : DatasetReader) :
  fs (tif args) = Some src ->
  overview args <= 1 ->
  snd (main nearest fs args) = inr tt ->
  exact_tiling (src_height src) (src_width src)
    (map snd (block_windows src)) ->
  let ws := written_windows (fst (main nearest fs args)) in
  ws = map snd (block_windows src) /\
  (forall r c,
      0 <= r < src_height src -> 0 <= c < src_width src ->
      cover_count ws r c = 1%nat) /\
  (forall r c,
      ~ (0 <= r < src_height src /\ 0 <= c < src_width src) ->
      cover_count ws r c = 0%nat) /\
  NoDup ws.
Proof.
  intros Hsrc Hov Hret Htile ws.
  assert (Hws : ws = map snd (block_windows src)).
  { subst ws. unfold written_windows.
    destruct (written_completed_full nearest fs args src Hsrc Hov Hret)
      as [thr_native ->].
    now rewrite map_map. }
  split; [exact Hws|]. rewrite Hws. split; [|split].
  - apply Htile.
  - intros r c Hout. now apply (exact_tiling_outside _ _ _ r c Htile).
  - now apply (exact_tiling_NoDup _ _ _ Htile).
Qed.

Lemma completed_run_covers_grid_witness :
  let ws := written_windows
              (fst (main centre_nearest (single_file tiled_src)
                      example_args)) in
  ws = map snd (block_windows tiled_src) /\
  (forall r c, 0 <= r < 32 -> 0 <= c < 32 -> cover_count ws r c = 1%nat) /\
  (forall r c, ~ (0 <= r < 32 /\ 0 <= c < 32) ->
     cover_count ws r c = 0%nat) /\
  NoDup ws.
Proof.
  apply (completed_run_covers_grid centre_nearest (single_file tiled_src)
           example_args tiled_src).
  - reflexivity.
  - simpl. lia.
  - vm_compute. reflexivity.
  - exact tiled_tiling.
Defined.
